(** * Composer4U: the generation pipeline of [operators.py]

    A shallow embedding of the asynchronous generation / playback /
    cancellation pipeline of the Composer4U add-on:

    - the coroutine [COMPOSER4U_OT_SendPrompt._generate_music_async], as a
      machine that is resumed at each of its [await] points;
    - the handle returned by [_submit_async_task_to_background]
      (a [concurrent.futures.Future] chained to the asyncio task);
    - the operators [COMPOSER4U_OT_SendPrompt] ([poll], [invoke], [modal],
      [cancel], [_cleanup]) and [COMPOSER4U_OT_StopGeneration].

    Everything the code reads from the outside world (the clock, the
    temporary file name, what the network delivers, whether a device or a
    file operation raises) is an explicit input of the model. *)

From stdpp Require Import gmap strings list fin_maps.
From Stdlib Require Import ZArith Ascii.

Local Open Scope string_scope.
Local Open Scope list_scope.

(** ** Python values and helpers *)

Module Py.

(** A value stored in [_result_container]: a [str] or [None]. *)
Inductive pyval :=
| PyNone
| PyStr (s : string).

(** The exceptions the pipeline distinguishes. Since Python 3.8
    [asyncio.CancelledError] derives from [BaseException] only, so an
    [except Exception] clause does not catch it;
    [concurrent.futures.CancelledError] still derives from [Exception]. *)
Inductive exn :=
| AsyncioCancelledError
| FuturesCancelledError
| PyException (text : string).

(** [isinstance(e, Exception)] *)
Definition is_Exception (e : exn) : bool :=
  match e with
  | AsyncioCancelledError => false
  | FuturesCancelledError | PyException _ => true
  end.

(** [isinstance(e, (asyncio.CancelledError, concurrent.futures.CancelledError))] *)
Definition is_CancelledError (e : exn) : bool :=
  match e with
  | AsyncioCancelledError | FuturesCancelledError => true
  | PyException _ => false
  end.

(** [str(e)], as it is spliced into an f-string. *)
Definition str (e : exn) : string :=
  match e with
  | AsyncioCancelledError | FuturesCancelledError => ""
  | PyException text => text
  end.

(** Truth value of a [str]. *)
Definition truthy (s : string) : bool :=
  match s with
  | EmptyString => false
  | String _ _ => true
  end.

(** Truth value of a [str]-or-[None]. *)
Definition truthy_val (v : pyval) : bool :=
  match v with
  | PyNone => false
  | PyStr s => truthy s
  end.

(** [d.get(k)]: [None] when the key is missing. *)
Definition dict_get (d : gmap string pyval) (k : string) : pyval :=
  default PyNone (d !! k).

(** A [string] stands for a Python [str] whose characters are code points
    below 256 (the Latin-1 range), one [ascii] per character: lengths and
    slices count characters. Text with other characters is outside the
    model. The two predicates below follow the Unicode database on that
    range. *)
Definition between (lo hi : nat) (c : ascii) : bool :=
  let n := nat_of_ascii c in (lo <=? n)%nat && (n <=? hi)%nat.

(** [c.isspace()]: the ASCII white space and separators, NEXT LINE
    (U+0085) and NO-BREAK SPACE (U+00A0). *)
Definition isspace (c : ascii) : bool :=
  between 9 13 c || between 28 32 c || between 133 133 c || between 160 160 c.

(** [c.isalnum()]: the ASCII digits and letters; the superscript digits
    and vulgar fractions; the ordinal indicators, the micro sign and the
    accented letters, but not the multiplication and division signs. *)
Definition isalnum (c : ascii) : bool :=
  between 48 57 c || between 65 90 c || between 97 122 c
  || between 170 170 c || between 178 179 c || between 181 181 c
  || between 185 186 c || between 188 190 c
  || between 192 214 c || between 216 246 c || between 248 255 c.

Fixpoint lstrip (p : ascii -> bool) (s : string) : string :=
  match s with
  | EmptyString => EmptyString
  | String c s' => if p c then lstrip p s' else s
  end.

(** [s.strip()] and [s.strip(chars)]: the characters to drop are given
    by a predicate. *)
Definition strip_with (p : ascii -> bool) (s : string) : string :=
  String.rev (lstrip p (String.rev (lstrip p s))).

Definition strip (s : string) : string := strip_with isspace s.

(** [s[:n]]: the first [n] characters. *)
Fixpoint str_take (n : nat) (s : string) : string :=
  match n, s with
  | S n', String c s' => String c (str_take n' s')
  | _, _ => EmptyString
  end.

Fixpoint map_chars (f : ascii -> ascii) (s : string) : string :=
  match s with
  | EmptyString => EmptyString
  | String c s' => String (f c) (map_chars f s')
  end.

(** [needle in s] *)
Fixpoint contains (needle s : string) : bool :=
  String.prefix needle s ||
  match s with
  | EmptyString => false
  | String _ s' => contains needle s'
  end.

(** [a or b] on strings. *)
Definition or_else (a b : string) : string := if truthy a then a else b.

(** [os.path.join(folder, name)] for a relative [name], POSIX flavour. *)
Definition path_join (folder name : string) : string :=
  if String.prefix "/" (String.rev folder) then folder +:+ name
  else folder +:+ "/" +:+ name.

End Py.
Export Py.

(** ** Common configuration *)

Definition FORMAT_WAV_BITS : nat := 16.
Definition CHANNELS : nat := 2.
Definition OUTPUT_RATE : Z := 48000%Z.
Definition MODEL : string := "models/lyria-realtime-exp".

(** ** The sound file, as the standard [wave] module writes it

    [wave.open(path, 'wb')] creates (or truncates) the file. The RIFF
    header is 44 bytes; it is written by the first [writeframes] or, if no
    frame was ever written, by [close]. [writeframes] and [close] patch the
    data length recorded in the header to the number of bytes written.

    The writer goes through a buffered file object: what it has been
    handed reaches the path when the buffer overflows, when the header is
    patched, or at [close]. How much stays in the buffer after a write
    is therefore an input of the model; after [close] nothing does. *)

Module Wave.

Abbreviation bytes := (list Byte.byte).

Record wav_file := {
  header : option nat;   (* data length recorded in the header, once written *)
  payload : bytes;       (* raw PCM data handed to the writer *)
  on_disk : nat;         (* how many bytes of the file are at the path *)
}.

Definition HEADER_BYTES : nat := 44.

(** [os.path.getsize] *)
Definition getsize (f : wav_file) : nat := on_disk f.

(** Bytes per frame: channels times bytes per sample. *)
Definition frame_bytes : nat := CHANNELS * (FORMAT_WAV_BITS / 8).

(** [getnframes()] of a reader opened on the file: [None] when the path
    does not hold a whole header (an exception of the reader). *)
Definition nframes (f : wav_file) : option nat :=
  if (on_disk f <? HEADER_BYTES)%nat then None
  else (λ n, n / frame_bytes) <$> header f.

Definition blank : wav_file := {| header := None; payload := []; on_disk := 0 |}.

(** [writeframes(chunk)]; [unflushed] is how many bytes the environment
    leaves in the buffer: what is at the path never shrinks. *)
Definition append (chunk : bytes) (unflushed : nat) (f : wav_file) : wav_file :=
  let total := HEADER_BYTES + length (payload f ++ chunk) in
  {| header := Some (length (payload f ++ chunk));
     payload := payload f ++ chunk;
     on_disk := on_disk f `max` (total - unflushed) |}.

(** [close()]: header written or patched, everything flushed. *)
Definition finalize (f : wav_file) : wav_file :=
  {| header := Some (length (payload f)); payload := payload f;
     on_disk := HEADER_BYTES + length (payload f) |}.

(** The writer keeps its own descriptor: once the path has been
    unlinked, writing and closing no longer change what the path names. *)
Definition open (p : string) (fs : gmap string wav_file) : gmap string wav_file :=
  <[p := blank]> fs.

Definition writeframes (p : string) (chunk : bytes) (unflushed : nat)
    (fs : gmap string wav_file) : gmap string wav_file :=
  alter (append chunk unflushed) p fs.

Definition close (p : string) (fs : gmap string wav_file) : gmap string wav_file :=
  alter finalize p fs.

End Wave.
Export Wave.

(** ** State shared between the background task and the operators *)

Record store := {
  container : gmap string pyval;   (* COMPOSER4U_OT_SendPrompt._result_container *)
  files : gmap string wav_file;    (* regular files, by path *)
  dirs : gset string;              (* existing directories *)
}.

Definition with_container (d : gmap string pyval) (st : store) : store :=
  {| container := d; files := files st; dirs := dirs st |}.

Definition with_files (fs : gmap string wav_file) (st : store) : store :=
  {| container := container st; files := fs; dirs := dirs st |}.

(** [os.path.exists] on a file path, [os.path.isdir], [os.path.getsize]. *)
Definition path_exists (p : string) (st : store) : bool :=
  bool_decide (is_Some (files st !! p)).

Definition isdir (p : string) (st : store) : bool :=
  bool_decide (p ∈ dirs st).

Definition path_getsize (p : string) (st : store) : nat :=
  from_option getsize 0 (files st !! p).

(** ** The generation task: [_generate_music_async] *)

Module Task.

(** What reading an attribute of an object gives: its value, or the
    [AttributeError] of an object that has no such attribute. *)
Inductive getattr :=
| Attr (value : string)
| AttributeError (text : string).

(** One message of [session.receive()]. [server_content] holds the data
    of [message.server_content.audio_chunks]. The class of
    [message.filtered_prompt] is declared by the [genai] library, not
    here: the field holds what reading [.reason] on the notice gives. *)
Record message := {
  server_content : option (list bytes);
  filtered_prompt : option getattr;
}.

(** What one iteration of the receive loop meets: the message, whether
    [writeframes] raises and otherwise how many bytes it leaves in the
    buffer of the writer, and whether the device [write] raises. *)
Record item := {
  msg : message;
  write_error : option string;
  unflushed : nat;
  play_error : option string;
}.

(** What the synchronous part of the task reads from its environment. *)
Record task_env := {
  now : string;                        (* strftime("%Y%m%d_%H%M%S") *)
  temp_name : string;                  (* NamedTemporaryFile(...).name *)
  pyaudio_available : bool;            (* pyaudio and FORMAT_PYAUDIO *)
  device_open_error : option string;   (* p_audio.open raising *)
  wave_open_error : option string;     (* wave.open raising *)
  remove_error : option string;        (* os.remove raising OSError *)
  close_error : option string;         (* wav_writer.close() raising *)
  stop_stream_error : option string;   (* output_stream.stop_stream() raising *)
  stream_close_error : option string;  (* output_stream.close() raising *)
  terminate_error : option string;     (* p_audio.terminate() raising *)
}.

(** How a suspended coroutine is resumed. *)
Inductive resumption :=
| Start                  (* first step of the asyncio task *)
| Value                  (* the awaited call returned *)
| Yield (it : item)      (* the stream produced a message *)
| StopAsyncIteration     (* the stream ended cleanly *)
| Throw (e : exn).       (* the awaited call raised, or the task was cancelled
                            while it waited *)

Inductive exit :=
| Returned
| Raised (e : exn).

(** The suspension points of the coroutine. *)
Inductive pc :=
| AtStart
| AwaitConnect         (* async with client.aio.live.music.connect(...) *)
| AwaitSetPrompts      (* await session.set_weighted_prompts(...) *)
| AwaitPlay            (* await session.play() *)
| AwaitReceive         (* async for message in session.receive() *)
| Done (x : exit).

Inductive handle := Open | Closed.

Record coroutine := {
  api_key : string;
  prompt_text : string;
  output_folder : string;
  env : task_env;
  at_pc : pc;
  audio_filepath : option string;
  wav_writer : option handle;
  p_audio : option handle;
  output_stream : option handle;
  was_cancelled : bool;
  session : option handle;
  played : list bytes;             (* what was pushed to the device *)
}.

Definition create (key prompt folder : string) (e : task_env) : coroutine :=
  {| api_key := key; prompt_text := prompt; output_folder := folder; env := e;
     at_pc := AtStart; audio_filepath := None; wav_writer := None;
     p_audio := None; output_stream := None; was_cancelled := false;
     session := None; played := [] |}.

Definition with_pc (x : pc) (c : coroutine) : coroutine :=
  {| api_key := api_key c; prompt_text := prompt_text c;
     output_folder := output_folder c; env := env c; at_pc := x;
     audio_filepath := audio_filepath c; wav_writer := wav_writer c;
     p_audio := p_audio c; output_stream := output_stream c;
     was_cancelled := was_cancelled c; session := session c;
     played := played c |}.

Definition with_path (x : option string) (c : coroutine) : coroutine :=
  {| api_key := api_key c; prompt_text := prompt_text c;
     output_folder := output_folder c; env := env c; at_pc := at_pc c;
     audio_filepath := x; wav_writer := wav_writer c;
     p_audio := p_audio c; output_stream := output_stream c;
     was_cancelled := was_cancelled c; session := session c;
     played := played c |}.

Definition with_writer (x : option handle) (c : coroutine) : coroutine :=
  {| api_key := api_key c; prompt_text := prompt_text c;
     output_folder := output_folder c; env := env c; at_pc := at_pc c;
     audio_filepath := audio_filepath c; wav_writer := x;
     p_audio := p_audio c; output_stream := output_stream c;
     was_cancelled := was_cancelled c; session := session c;
     played := played c |}.

Definition with_pyaudio (x : option handle) (c : coroutine) : coroutine :=
  {| api_key := api_key c; prompt_text := prompt_text c;
     output_folder := output_folder c; env := env c; at_pc := at_pc c;
     audio_filepath := audio_filepath c; wav_writer := wav_writer c;
     p_audio := x; output_stream := output_stream c;
     was_cancelled := was_cancelled c; session := session c;
     played := played c |}.

Definition with_stream (x : option handle) (c : coroutine) : coroutine :=
  {| api_key := api_key c; prompt_text := prompt_text c;
     output_folder := output_folder c; env := env c; at_pc := at_pc c;
     audio_filepath := audio_filepath c; wav_writer := wav_writer c;
     p_audio := p_audio c; output_stream := x;
     was_cancelled := was_cancelled c; session := session c;
     played := played c |}.

Definition with_cancelled (x : bool) (c : coroutine) : coroutine :=
  {| api_key := api_key c; prompt_text := prompt_text c;
     output_folder := output_folder c; env := env c; at_pc := at_pc c;
     audio_filepath := audio_filepath c; wav_writer := wav_writer c;
     p_audio := p_audio c; output_stream := output_stream c;
     was_cancelled := x; session := session c;
     played := played c |}.

Definition with_session (x : option handle) (c : coroutine) : coroutine :=
  {| api_key := api_key c; prompt_text := prompt_text c;
     output_folder := output_folder c; env := env c; at_pc := at_pc c;
     audio_filepath := audio_filepath c; wav_writer := wav_writer c;
     p_audio := p_audio c; output_stream := output_stream c;
     was_cancelled := was_cancelled c; session := x;
     played := played c |}.

Definition with_played (x : list bytes) (c : coroutine) : coroutine :=
  {| api_key := api_key c; prompt_text := prompt_text c;
     output_folder := output_folder c; env := env c; at_pc := at_pc c;
     audio_filepath := audio_filepath c; wav_writer := wav_writer c;
     p_audio := p_audio c; output_stream := output_stream c;
     was_cancelled := was_cancelled c; session := session c;
     played := x |}.

(** *** Output path *)

(** ["".join(c if c.isalnum() else "_" for c in prompt_text[:30]).strip("_") or "music"] *)
Definition sanitized_prompt (prompt : string) : string :=
  or_else
    (strip_with (λ c, Ascii.eqb c "_")
       (map_chars (λ c, if isalnum c then c else "_"%char) (str_take 30 prompt)))
    "music".

Definition filename (timestamp prompt : string) : string :=
  "composition_" +:+ timestamp +:+ "_" +:+ sanitized_prompt prompt +:+ ".wav".

(** The [if output_folder and os.path.isdir(output_folder)] statement:
    a timestamped name in the folder, or a fresh temporary file, which
    [NamedTemporaryFile(delete=False)] creates empty. *)
Definition resolve_path (c : coroutine) (st : store) : string * store :=
  if truthy (output_folder c) && isdir (output_folder c) st
  then (path_join (output_folder c) (filename (now (env c)) (prompt_text c)), st)
  else (temp_name (env c),
        with_files (<[temp_name (env c) := blank]> (files st)) st).

(** *** The [except] and [finally] clauses *)

Definition path_of (c : coroutine) : string := default "" (audio_filepath c).

(** A sequence of calls, any of which may raise: the exception that
    stopped it, if any, and the state it left. *)
Definition raising : Type := option exn * coroutine * store.

Definition and_then (r : raising) (k : coroutine → store → raising) : raising :=
  match r with
  | (Some e, c, st) => (Some e, c, st)
  | (None, c, st) => k c st
  end.

(** [if wav_writer: wav_writer.close()]. A [close()] that raises gives
    no guarantee: the writer counts as open and the file is left as it
    is. *)
Definition close_writer (c : coroutine) (st : store) : raising :=
  if wav_writer c is Some _ then
    match close_error (env c) with
    | Some t => (Some (PyException t), c, st)
    | None => (None, with_writer (Some Closed) c,
               with_files (Wave.close (path_of c) (files st)) st)
    end
  else (None, c, st).

(** [if output_stream: output_stream.stop_stream(); output_stream.close()] *)
Definition close_stream (c : coroutine) (st : store) : raising :=
  if output_stream c is Some _ then
    match stop_stream_error (env c), stream_close_error (env c) with
    | Some t, _ => (Some (PyException t), c, st)
    | None, Some t => (Some (PyException t), c, st)
    | None, None => (None, with_stream (Some Closed) c, st)
    end
  else (None, c, st).

(** [if p_audio: p_audio.terminate()] *)
Definition terminate (c : coroutine) (st : store) : raising :=
  if p_audio c is Some _ then
    match terminate_error (env c) with
    | Some t => (Some (PyException t), c, st)
    | None => (None, with_pyaudio (Some Closed) c, st)
    end
  else (None, c, st).

(** [finally]: close whatever was opened, one call after the other. None
    of the calls is guarded: the first that raises skips those after it. *)
Definition finally (c : coroutine) (st : store) : raising :=
  and_then (and_then (close_writer c st) close_stream) terminate.

(** Whether the clause closes the writer: there is one, and its
    [close()] does not raise. *)
Definition writer_closes (c : coroutine) : bool :=
  bool_decide (is_Some (wav_writer c)) && bool_decide (close_error (env c) = None).

(** The removal of the partial file in the [except] clause:
    [if audio_filepath and os.path.exists(audio_filepath)], then
    [os.remove] under [try ... except OSError]. *)
Definition remove_partial (c : coroutine) (st : store) : store :=
  match audio_filepath c with
  | Some p =>
      if truthy p && path_exists p st then
        if remove_error (env c) is Some _ then st
        else with_files (delete p (files st)) st
      else st
  | None => st
  end.

(** [except Exception as e]: a cancellation is swallowed and keeps the
    file; any other exception removes the file, clears the path in the
    result container and is raised again. An exception that is not an
    [Exception] passes through untouched. *)
Definition except (e : exn) (c : coroutine) (st : store) : exit * store :=
  if is_Exception e then
    if is_CancelledError e then (Returned, st)
    else
      let st1 := remove_partial c st in
      (Raised e, with_container (<["audio_filepath" := PyNone]> (container st1)) st1)
  else (Raised e, st).

(** How the [except] clause lets an exception of the body leave. *)
Definition body_exit (e : exn) : exit :=
  if is_Exception e && is_CancelledError e then Returned else Raised e.

(** How the [try] statement is left: with the exception of the [finally]
    clause when it raised one, otherwise the way the clauses before it
    decided. *)
Definition leave (x : exit) (r : raising) : coroutine * store :=
  let '(raised, c, st) := r in
  (with_pc (Done (if raised is Some e then Raised e else x)) c, st).

(** An exception raised in the [try] body: handler, then [finally]. *)
Definition fail (e : exn) (c : coroutine) (st : store) : coroutine * store :=
  let '(x, st1) := except e c st in leave x (finally c st1).

(** Leaving the [async with] block releases the session. *)
Definition leave_session (c : coroutine) : coroutine :=
  if session c is Some _ then with_session (Some Closed) c else c.

(** The code after the [async with] block, then [finally]. *)
Definition complete (c : coroutine) (st : store) : coroutine * store :=
  let st1 :=
    if was_cancelled c then st
    else with_container
           (<["message" := PyStr "Music generated successfully."]> (container st)) st in
  leave Returned (finally c st1).

(** [asyncio.current_task().cancelled()]: a task is cancelled once its
    coroutine has ended by [asyncio.CancelledError]; until then, and so
    each time the running coroutine asks, the answer is [False]. *)
Definition current_task_cancelled (c : coroutine) : bool :=
  match at_pc c with
  | Done (Raised AsyncioCancelledError) => true
  | _ => false
  end.

(** *** The body of the coroutine, one segment per resumption *)

(** From the first line to the first [await]: the output path, the
    PyAudio stream when the library is present, the WAV writer. The
    construction of [genai.Client], the reports and the debug prints
    change nothing that is observed here and are left out. *)
Definition open_writer (c : coroutine) (st : store) : coroutine * store :=
  match wave_open_error (env c) with
  | Some e => fail (PyException e) c st
  | None =>
      (with_pc AwaitConnect (with_writer (Some Open) c),
       with_files (Wave.open (path_of c) (files st)) st)
  end.

Definition start (c : coroutine) (st : store) : coroutine * store :=
  let '(p, st1) := resolve_path c st in
  let c1 := with_path (Some p) c in
  let st2 := with_container (<["audio_filepath" := PyStr p]> (container st1)) st1 in
  if pyaudio_available (env c) then
    let c2 := with_pyaudio (Some Open) c1 in
    match device_open_error (env c) with
    | Some e => fail (PyException e) c2 st2
    | None => open_writer (with_stream (Some Open) c2) st2
    end
  else open_writer c1 st2.

(** One iteration of [async for message in session.receive()]. *)
Definition loop_body (it : item) (c : coroutine) (st : store) : coroutine * store :=
  if current_task_cancelled c then
    complete (leave_session (with_cancelled true c)) st
  else
    match server_content (msg it) with
    | Some audio_chunks =>
        match audio_chunks with
        | [] => fail (PyException "list index out of range") (leave_session c) st
        | chunk :: _ =>
            match write_error it with
            | Some e => fail (PyException e) (leave_session c) st
            | None =>
                let st1 :=
                  with_files (writeframes (path_of c) chunk (unflushed it) (files st)) st in
                if output_stream c is Some _ then
                  match play_error it with
                  | Some e => fail (PyException e) (leave_session c) st1
                  | None => (with_played (played c ++ [chunk]) c, st1)
                  end
                else (c, st1)
            end
        end
    | None =>
        match filtered_prompt (msg it) with
        | Some (Attr reason) =>
            fail (PyException ("Prompt filtered by API: " +:+ reason))
              (leave_session c) st
        | Some (AttributeError text) =>
            fail (PyException text) (leave_session c) st
        | None => (c, st)
        end
    end.

(** Resuming the coroutine runs it to its next suspension point. A
    coroutine that has not started can only be started: the event loop
    runs the first step of a task before anything else reaches it, a
    cancellation included. A resumption that does not fit the suspension
    point leaves the coroutine where it is. *)
Definition _generate_music_async (r : resumption) (c : coroutine) (st : store)
  : coroutine * store :=
  match at_pc c, r with
  | AtStart, Start => start c st
  | AwaitConnect, Value => (with_pc AwaitSetPrompts (with_session (Some Open) c), st)
  | AwaitConnect, Throw e => fail e c st
  | AwaitSetPrompts, Value => (with_pc AwaitPlay c, st)
  | AwaitSetPrompts, Throw e => fail e (leave_session c) st
  | AwaitPlay, Value => (with_pc AwaitReceive c, st)
  | AwaitPlay, Throw e => fail e (leave_session c) st
  | AwaitReceive, Yield it => loop_body it c st
  | AwaitReceive, StopAsyncIteration => complete (leave_session c) st
  | AwaitReceive, Throw e => fail e (leave_session c) st
  | _, _ => (c, st)
  end.

(** The resumptions through which the task learns that it was
    cancelled: a cancellation error raised at the [await]. *)
Definition observes_cancellation (r : resumption) : bool :=
  match r with
  | Throw e => is_CancelledError e
  | Start | Value | Yield _ | StopAsyncIteration => false
  end.

End Task.

(** ** The background engine: handles of submitted tasks *)

Module Engine.
Import Task.

(** The handle returned by [asyncio.run_coroutine_threadsafe], a
    [concurrent.futures.Future]. It stays pending until the state of the
    asyncio task is copied into it, or until [cancel()] is called on it. *)
Inductive future :=
| Pending
| Cancelled
| Finished (x : exit).

(** [future.done()] *)
Definition done (f : future) : bool :=
  match f with
  | Pending => false
  | Cancelled | Finished _ => true
  end.

(** [future.cancel()]: a pending handle becomes cancelled at once, which
    is what makes [done()] answer [True] from then on; the asyncio task
    is only told to cancel afterwards, on its own thread. *)
Definition cancel_future (f : future) : future :=
  match f with
  | Pending => Cancelled
  | Cancelled | Finished _ => f
  end.

(** [future.result()] of a handle that is done: [None] is returned or an
    exception is raised. *)
Definition result (f : future) : exit :=
  match f with
  | Finished x => x
  | Pending | Cancelled => Raised FuturesCancelledError
  end.

(** asyncio's [_set_concurrent_future_state], run when the coroutine has
    finished: a task that ended by [asyncio.CancelledError] cancels the
    handle; a handle that is cancelled keeps that state; otherwise the
    result or the exception is stored. *)
Definition _set_concurrent_future_state (x : exit) (f : future) : future :=
  let f1 := if x is Raised AsyncioCancelledError then cancel_future f else f in
  match f1 with
  | Pending => Finished x
  | Cancelled | Finished _ => f1
  end.

(** One entry of [_async_tasks]: the handle and the coroutine behind it. *)
Record job := {
  fut : future;
  coro : coroutine;
}.

(** A job just submitted: a pending handle on a coroutine not yet started. *)
Definition fresh (c : coroutine) : job := {| fut := Pending; coro := c |}.

(** [_submit_async_task_to_background]: the coroutine is scheduled on the
    background loop and its handle appended to [_async_tasks]. The list is
    kept whole here, so that a handle is named by its position; the reaping
    of finished handles by the loop thread is housekeeping. *)
Definition _submit_async_task_to_background (c : coroutine) (tasks : list job)
  : nat * list job :=
  (length tasks, tasks ++ [fresh c]).

(** The event loop resumes the coroutine of a job; when the coroutine
    finishes, its outcome is copied into the handle. *)
Definition advance (r : resumption) (j : job) (st : store) : job * store :=
  match at_pc (coro j) with
  | Done _ => (j, st)
  | _ =>
      let '(c1, st1) := _generate_music_async r (coro j) st in
      ({| fut := if at_pc c1 is Done x
                 then _set_concurrent_future_state x (fut j) else fut j;
          coro := c1 |}, st1)
  end.

(** [future.cancel()] on the handle of a job. *)
Definition cancel_job (j : job) : job :=
  {| fut := cancel_future (fut j); coro := coro j |}.

(** What can happen to one job: the event loop resumes its coroutine,
    or the foreground calls [cancel()] on its handle. *)
Inductive job_event :=
| Resume (r : resumption)
| CancelHandle.

Definition job_step (ev : job_event) (j : job) (st : store) : job * store :=
  match ev with
  | Resume r => advance r j st
  | CancelHandle => (cancel_job j, st)
  end.

Fixpoint run_job (evs : list job_event) (j : job) (st : store) : job * store :=
  match evs with
  | [] => (j, st)
  | ev :: evs' => let '(j1, st1) := job_step ev j st in run_job evs' j1 st1
  end.

End Engine.

(** ** The operators *)

Module Controller.
Import Task Engine.

Record world := {
  (* scene properties *)
  composer4u_input : string;
  composer4u_history : list string;
  composer4u_index : Z;
  composer4u_last_audio_path : string;
  composer4u_output_folder : string;
  (* add-on preferences and imports *)
  genai_loaded : bool;                 (* genai is not None *)
  prefs_api_key : string;              (* addon_prefs.api_key *)
  (* class attribute of COMPOSER4U_OT_SendPrompt, as an index in _async_tasks *)
  _async_task_future : option nat;
  (* module globals *)
  _async_tasks : list job;
  shared : store;
  (* calls of bpy.ops.composer4u.add_audio_to_timeline, by filepath *)
  timeline_calls : list string;
}.

(** What an operator method returns to the host. *)
Inductive status := RUNNING_MODAL | PASS_THROUGH | FINISHED | CANCELLED.

Definition current_future (w : world) : option future :=
  i ← _async_task_future w; fut <$> _async_tasks w !! i.

(** [COMPOSER4U_OT_SendPrompt.poll] *)
Definition poll (w : world) : bool :=
  if negb (genai_loaded w) then false
  else truthy (prefs_api_key w)
       && match current_future w with
          | None => true
          | Some f => done f
          end.

(** [COMPOSER4U_OT_SendPrompt.invoke]; [e] is what the new task will read
    from its environment. *)
Definition invoke (e : task_env) (w : world) : world * status :=
  if negb (truthy (prefs_api_key w)) then (w, CANCELLED)
  else
    let prompt := strip (composer4u_input w) in
    let output_folder := strip (composer4u_output_folder w) in
    if negb (truthy prompt) then (w, CANCELLED)
    else if truthy output_folder && negb (isdir output_folder (shared w))
    then (w, CANCELLED)
    else
      let history := composer4u_history w ++ ["Prompt: " +:+ prompt] in
      let '(i, tasks) :=
        _submit_async_task_to_background
          (create (prefs_api_key w) prompt output_folder e) (_async_tasks w) in
      ({| composer4u_input := "";
          composer4u_history := history;
          composer4u_index := Z.of_nat (length history) - 1;
          composer4u_last_audio_path := "";
          composer4u_output_folder := composer4u_output_folder w;
          genai_loaded := genai_loaded w;
          prefs_api_key := prefs_api_key w;
          _async_task_future := Some i;
          _async_tasks := tasks;
          shared := with_container ∅ (shared w);
          timeline_calls := timeline_calls w |}, RUNNING_MODAL).

(** [audio_filepath and os.path.exists(audio_filepath) and
    os.path.getsize(audio_filepath) > 0] *)
Definition has_audio (a : pyval) (st : store) : bool :=
  match a with
  | PyNone => false
  | PyStr p => truthy p && path_exists p st && (0 <? path_getsize p st)%nat
  end.

Definition path_str (a : pyval) : string :=
  match a with
  | PyNone => ""
  | PyStr p => p
  end.

(** [_result_container.get('message', default)]; nothing ever stores
    [None] under this key. *)
Definition get_message (d : gmap string pyval) (dflt : string) : string :=
  match d !! "message" with
  | Some (PyStr s) => s
  | Some PyNone => "None"
  | None => dflt
  end.

Definition set_last_audio_path (p : string) (w : world) : world :=
  {| composer4u_input := composer4u_input w;
     composer4u_history := composer4u_history w;
     composer4u_index := composer4u_index w;
     composer4u_last_audio_path := p;
     composer4u_output_folder := composer4u_output_folder w;
     genai_loaded := genai_loaded w;
     prefs_api_key := prefs_api_key w;
     _async_task_future := _async_task_future w;
     _async_tasks := _async_tasks w;
     shared := shared w;
     timeline_calls := timeline_calls w |}.

(** [bpy.ops.composer4u.add_audio_to_timeline(filepath=p)] *)
Definition add_audio_to_timeline (p : string) (w : world) : world :=
  {| composer4u_input := composer4u_input w;
     composer4u_history := composer4u_history w;
     composer4u_index := composer4u_index w;
     composer4u_last_audio_path := composer4u_last_audio_path w;
     composer4u_output_folder := composer4u_output_folder w;
     genai_loaded := genai_loaded w;
     prefs_api_key := prefs_api_key w;
     _async_task_future := _async_task_future w;
     _async_tasks := _async_tasks w;
     shared := shared w;
     timeline_calls := timeline_calls w ++ [p] |}.

(** The [try ... except] statement of [modal]: the values it leaves in
    [audio_filepath] and [message_for_user], and the world after it.
    [None] stands for an exception that [except Exception] does not
    catch. *)
Definition modal_try (f : future) (w : world) : option (pyval * string * world) :=
  match result f with
  | Returned =>
      Some (dict_get (container (shared w)) "audio_filepath",
            get_message (container (shared w)) "Music generated successfully.",
            w)
  | Raised e =>
      if is_Exception e then
        if is_CancelledError e then
          let a := dict_get (container (shared w)) "audio_filepath" in
          Some (a, "Generation stopped by user.",
                if has_audio a (shared w)
                then add_audio_to_timeline (path_str a)
                       (set_last_audio_path (path_str a) w)
                else w)
        else Some (PyNone, "Error: " +:+ str e, w)
      else None
  end.

(** The final update of the scene property. *)
Definition modal_update_path (a : pyval) (m : string) (w : world) : world :=
  if has_audio a (shared w) then set_last_audio_path (path_str a) w
  else if contains "Error" m || contains "No audio file" m
       then set_last_audio_path "" w
       else w.

(** The history entry, followed by [_cleanup]. *)
Definition modal_finish (m : string) (w : world) : world :=
  let history := composer4u_history w ++ ["Composer4U: " +:+ m] in
  {| composer4u_input := composer4u_input w;
     composer4u_history := history;
     composer4u_index := Z.of_nat (length history) - 1;
     composer4u_last_audio_path := composer4u_last_audio_path w;
     composer4u_output_folder := composer4u_output_folder w;
     genai_loaded := genai_loaded w;
     prefs_api_key := prefs_api_key w;
     _async_task_future := None;
     _async_tasks := _async_tasks w;
     shared := shared w;
     timeline_calls := timeline_calls w |}.

(** [COMPOSER4U_OT_SendPrompt.modal], on a timer tick. *)
Definition modal (w : world) : world * status :=
  match current_future w with
  | Some f =>
      if done f then
        match modal_try f w with
        | Some (a, m, w1) => (modal_finish m (modal_update_path a m w1), FINISHED)
        | None => (w, CANCELLED)
        end
      else (w, PASS_THROUGH)
  | None => (w, PASS_THROUGH)
  end.

Definition set_tasks (tasks : list job) (st : store) (w : world) : world :=
  {| composer4u_input := composer4u_input w;
     composer4u_history := composer4u_history w;
     composer4u_index := composer4u_index w;
     composer4u_last_audio_path := composer4u_last_audio_path w;
     composer4u_output_folder := composer4u_output_folder w;
     genai_loaded := genai_loaded w;
     prefs_api_key := prefs_api_key w;
     _async_task_future := _async_task_future w;
     _async_tasks := tasks;
     shared := st;
     timeline_calls := timeline_calls w |}.

(** [COMPOSER4U_OT_SendPrompt._cleanup] *)
Definition _cleanup (w : world) : world :=
  {| composer4u_input := composer4u_input w;
     composer4u_history := composer4u_history w;
     composer4u_index := composer4u_index w;
     composer4u_last_audio_path := composer4u_last_audio_path w;
     composer4u_output_folder := composer4u_output_folder w;
     genai_loaded := genai_loaded w;
     prefs_api_key := prefs_api_key w;
     _async_task_future := None;
     _async_tasks := _async_tasks w;
     shared := shared w;
     timeline_calls := timeline_calls w |}.

(** [COMPOSER4U_OT_SendPrompt._async_task_future.cancel()] *)
Definition cancel_current (w : world) : world :=
  match _async_task_future w with
  | Some i => set_tasks (alter cancel_job i (_async_tasks w)) (shared w) w
  | None => w
  end.

(** [COMPOSER4U_OT_StopGeneration.poll] *)
Definition stop_poll (w : world) : bool :=
  match current_future w with
  | Some f => negb (done f)
  | None => false
  end.

(** [COMPOSER4U_OT_StopGeneration.execute] *)
Definition stop_execute (w : world) : world * status :=
  match _async_task_future w with
  | Some _ => (cancel_current w, FINISHED)
  | None => (w, CANCELLED)
  end.

(** [COMPOSER4U_OT_SendPrompt.cancel] *)
Definition cancel (w : world) : world :=
  _cleanup (if stop_poll w then cancel_current w else w).

(** The event loop resumes the coroutine of the [i]-th submitted task. *)
Definition background (i : nat) (r : resumption) (w : world) : world :=
  match _async_tasks w !! i with
  | Some j =>
      let '(j1, st1) := advance r j (shared w) in
      set_tasks (<[i := j1]> (_async_tasks w)) st1 w
  | None => w
  end.

Definition set_input (s : string) (w : world) : world :=
  {| composer4u_input := s;
     composer4u_history := composer4u_history w;
     composer4u_index := composer4u_index w;
     composer4u_last_audio_path := composer4u_last_audio_path w;
     composer4u_output_folder := composer4u_output_folder w;
     genai_loaded := genai_loaded w;
     prefs_api_key := prefs_api_key w;
     _async_task_future := _async_task_future w;
     _async_tasks := _async_tasks w;
     shared := shared w;
     timeline_calls := timeline_calls w |}.

Definition set_output_folder (s : string) (w : world) : world :=
  {| composer4u_input := composer4u_input w;
     composer4u_history := composer4u_history w;
     composer4u_index := composer4u_index w;
     composer4u_last_audio_path := composer4u_last_audio_path w;
     composer4u_output_folder := s;
     genai_loaded := genai_loaded w;
     prefs_api_key := prefs_api_key w;
     _async_task_future := _async_task_future w;
     _async_tasks := _async_tasks w;
     shared := shared w;
     timeline_calls := timeline_calls w |}.

(** The active row of the history list: [composer4u_index] is the
    property the dialog hands to [template_list] as its active index. *)
Definition set_index (i : Z) (w : world) : world :=
  {| composer4u_input := composer4u_input w;
     composer4u_history := composer4u_history w;
     composer4u_index := i;
     composer4u_last_audio_path := composer4u_last_audio_path w;
     composer4u_output_folder := composer4u_output_folder w;
     genai_loaded := genai_loaded w;
     prefs_api_key := prefs_api_key w;
     _async_task_future := _async_task_future w;
     _async_tasks := _async_tasks w;
     shared := shared w;
     timeline_calls := timeline_calls w |}.

(** *** The host protocol

    The host runs an operator only when its [poll] answers [True]; the
    timer delivers ticks to [modal]; the event loop of the background
    thread resumes the tasks in between. *)
Inductive action :=
| SetInput (s : string)                 (* the user types a prompt *)
| SetOutputFolder (s : string)          (* the user picks a folder *)
| SelectRow (i : Z)                     (* the user selects a history row *)
| Submit (e : task_env)                 (* composer4u.send_prompt *)
| Stop                                  (* composer4u.stop_generation *)
| Tick                                  (* timer event, to modal *)
| HostCancel                            (* the host cancels the modal operator *)
| Background (i : nat) (r : resumption).

Definition submit (e : task_env) (w : world) : world * option status :=
  if poll w then let '(w1, s) := invoke e w in (w1, Some s) else (w, None).

Definition request_stop (w : world) : world * option status :=
  if stop_poll w then let '(w1, s) := stop_execute w in (w1, Some s) else (w, None).

Definition step (a : action) (w : world) : world :=
  match a with
  | SetInput s => set_input s w
  | SetOutputFolder s => set_output_folder s w
  | SelectRow i => set_index i w
  | Submit e => fst (submit e w)
  | Stop => fst (request_stop w)
  | Tick => fst (modal w)
  | HostCancel => cancel w
  | Background i r => background i r w
  end.

Definition exec (acts : list action) (w : world) : world :=
  foldl (λ w a, step a w) w acts.

(** [is_generating], as the dialog computes it: the same test as
    [COMPOSER4U_OT_StopGeneration.poll]. *)
Definition is_generating (w : world) : bool := stop_poll w.

(** The only handle that may be live is the one the operator class holds. *)
Definition single_live (w : world) : Prop :=
  ∀ i j, _async_tasks w !! i = Some j → done (fut j) = false →
         _async_task_future w = Some i.

(** The state of the add-on after registration, with an API key set. *)
Definition initial (key : string) (st : store) : world :=
  {| composer4u_input := "";
     composer4u_history := [];
     composer4u_index := 0;
     composer4u_last_audio_path := "";
     composer4u_output_folder := "";
     genai_loaded := true;
     prefs_api_key := key;
     _async_task_future := None;
     _async_tasks := [];
     shared := st;
     timeline_calls := [] |}.

End Controller.

Import Task Engine Controller.

(** ** What holds of a job between two resumptions *)

Section JobInvariant.

Variables (key prompt folder : string) (e0 : task_env) (st0 : store).

Local Abbreviation c0 := (create key prompt folder e0).

(** The artifact path, as resolved by the first segment of the task. *)
Definition resolved : string := fst (resolve_path c0 st0).

(** While the task is suspended at an [await]: the path is recorded in
    the locals and in the result container, the file exists, its writer
    is open, and so is the device when PyAudio is there. *)
Record streaming (c : coroutine) (st : store) : Prop := {
  s_path : audio_filepath c = Some resolved;
  s_container : container st !! "audio_filepath" = Some (PyStr resolved);
  s_file : is_Some (files st !! resolved);
  s_writer : wav_writer c = Some Open;
  s_stream : output_stream c = if pyaudio_available e0 then Some Open else None;
  s_pyaudio : p_audio c = if pyaudio_available e0 then Some Open else None;
  s_session : session c = if at_pc c is AwaitConnect then None else Some Open;
}.

(** Nothing the task opened is still open. *)
Definition released (c : coroutine) : Prop :=
  wav_writer c ≠ Some Open ∧ output_stream c ≠ Some Open
  ∧ p_audio c ≠ Some Open ∧ session c ≠ Some Open.

(** The header of the artifact records the length of its data, and all
    of the file is at its path. *)
Definition finalized (c : coroutine) (st : store) : Prop :=
  wav_writer c = Some Closed →
  ∀ f, files st !! path_of c = Some f →
       header f = Some (length (payload f))
       ∧ on_disk f = HEADER_BYTES + length (payload f).

(** After a failure: the path is cleared and, unless [os.remove] raised,
    the file is gone. *)
Definition cleaned (c : coroutine) (st : store) : Prop :=
  dict_get (container st) "audio_filepath" = PyNone
  ∧ ∀ p, audio_filepath c = Some p → truthy p = true →
         remove_error (env c) = None → files st !! p = None.

(** The errors the calls of the [finally] clause raise on this host. *)
Definition release_errors (e : task_env) : list string :=
  omap id [close_error e; stop_stream_error e; stream_close_error e;
           terminate_error e].

(** None of them raises. *)
Definition release_ok (e : task_env) : Prop := release_errors e = [].

(** What holds of the coroutine whenever it is suspended or finished. *)
Definition co_inv (c : coroutine) (st : store) : Prop :=
  env c = e0 ∧ was_cancelled c = false ∧
  match at_pc c with
  | AtStart => c = c0 ∧ st = st0
  | Done x =>
      session c ≠ Some Open
      ∧ (release_ok e0 → released c)
      ∧ finalized c st
      ∧ x ≠ Raised FuturesCancelledError
      ∧ (∀ t, x = Raised (PyException t) → cleaned c st ∨ t ∈ release_errors e0)
  | _ => streaming c st
  end.

(** The handle is pending or cancelled while the coroutine runs; it
    holds the outcome of the coroutine once that has finished, unless it
    was cancelled. *)
Definition handle_inv (j : job) : Prop :=
  match at_pc (coro j) with
  | Done x =>
      fut j = Cancelled ∨ fut j = Finished x ∧ x ≠ Raised AsyncioCancelledError
  | _ => fut j = Pending ∨ fut j = Cancelled
  end.

Definition job_inv (j : job) (st : store) : Prop :=
  co_inv (coro j) st ∧ handle_inv j.

End JobInvariant.

(** ** Concrete runs, used as test inputs below *)

Module Scenario.

Definition env_ok : task_env :=
  {| now := "20250101_120000"; temp_name := "/tmp/tmpabc.wav";
     pyaudio_available := true; device_open_error := None;
     wave_open_error := None; remove_error := None;
     close_error := None; stop_stream_error := None;
     stream_close_error := None; terminate_error := None |}.


(** The same as [env_ok], on a disk that fills up: closing the writer
    raises. *)
Definition env_full : task_env :=
  {| now := "20250101_120000"; temp_name := "/tmp/tmpabc.wav";
     pyaudio_available := true; device_open_error := None;
     wave_open_error := None; remove_error := None;
     close_error := Some "[Errno 28] No space left on device";
     stop_stream_error := None;
     stream_close_error := None; terminate_error := None |}.

Definition empty_store : store := {| container := ∅; files := ∅; dirs := ∅ |}.

Definition out_store : store :=
  {| container := ∅; files := ∅; dirs := {["/out"]} |}.

Definition chunk1 : bytes := [Byte.x01; Byte.x02; Byte.x03; Byte.x04].

Definition audio (chunk : bytes) : message :=
  {| server_content := Some [chunk]; filtered_prompt := None |}.

Definition notice (reason : getattr) : message :=
  {| server_content := None; filtered_prompt := Some reason |}.

(** A chunk that is written, flushed and played. *)
Definition it_audio : item :=
  {| msg := audio chunk1; write_error := None; unflushed := 0;
     play_error := None |}.

(** A chunk that is written and played, but stays in the buffer of the
    writer with the header. *)
Definition it_buffered : item :=
  {| msg := audio chunk1; write_error := None; unflushed := 48;
     play_error := None |}.

(** A chunk on which the device write raises. *)
Definition it_underrun : item :=
  {| msg := audio chunk1; write_error := None; unflushed := 0;
     play_error := Some "[Errno -9999] host error" |}.

(** A filter notice whose object has no attribute [reason]. *)
Definition it_filtered : item :=
  {| msg := notice (AttributeError
                      "'LiveMusicFilteredPrompt' object has no attribute 'reason'");
     write_error := None; unflushed := 0; play_error := None |}.

(** Up to the receive loop. *)
Definition connect : list job_event :=
  [Resume Start; Resume Value; Resume Value; Resume Value].

Definition job0 (e : task_env) : job := fresh (create "key" "calm piano" "" e).

(** Suspended in the loop after one chunk. *)
Definition streaming1 : job * store :=
  run_job (connect ++ [Resume (Yield it_audio)]) (job0 env_ok) empty_store.

(** The same, after the user has asked to stop. *)
Definition stopping1 : job * store :=
  run_job (connect ++ [Resume (Yield it_audio); CancelHandle])
    (job0 env_ok) empty_store.

(** Stopped after one chunk. *)
Definition stopped1 : job * store :=
  job_step (Resume (Throw AsyncioCancelledError)) (fst stopping1) (snd stopping1).

(** Suspended in the loop, nothing received yet. *)
Definition waiting (e : task_env) : job * store :=
  run_job connect (job0 e) empty_store.


(** A device error on the first chunk. *)
Definition underrun : job * store :=
  run_job (connect ++ [Resume (Yield it_underrun)]) (job0 env_ok) empty_store.

(** A generation of one chunk on the disk that fills up: the stream ends
    cleanly, then closing the writer raises. *)
Definition overflow1 : job * store :=
  run_job (connect ++ [Resume (Yield it_audio); Resume StopAsyncIteration])
    (job0 env_full) empty_store.

(** The add-on with a key, a prompt typed in. *)
Definition ready : world :=
  set_input " calm piano " (initial "key" empty_store).

Definition to_loop : list action :=
  [Background 0 Start; Background 0 Value; Background 0 Value; Background 0 Value].

(** A generation that ran to its end, before the timer tick. *)
Definition w_finished : world :=
  exec (Submit env_ok :: to_loop
          ++ [Background 0 (Yield it_audio); Background 0 StopAsyncIteration])
    ready.

(** A generation in flight, one chunk received. *)
Definition w_streaming : world :=
  exec (Submit env_ok :: to_loop ++ [Background 0 (Yield it_audio)]) ready.

(** A generation stopped before any chunk arrived, the task has
    finished, before the timer tick. *)
Definition w_stopped0 : world :=
  exec (Submit env_ok :: to_loop
          ++ [Stop; Background 0 (Throw AsyncioCancelledError)])
    ready.

(** One chunk, then the user stops and the task is cancelled. *)
Definition stop_after_one : list action :=
  to_loop ++ [Background 0 (Yield it_audio); Stop;
              Background 0 (Throw AsyncioCancelledError)].


(** One chunk, then the host cancels the operator; the task is
    cancelled in the background and the timer keeps ticking. *)
Definition host_cancelled : list action :=
  Submit env_ok :: to_loop
  ++ [Background 0 (Yield it_audio); HostCancel;
      Background 0 (Throw AsyncioCancelledError); Tick; Tick].

(** A first generation ran to its end and was reconciled; a second one
    has just been submitted. *)
Definition second_flight : list action :=
  SetInput " calm piano " :: Submit env_ok :: to_loop
  ++ [Background 0 (Yield it_audio); Background 0 StopAsyncIteration; Tick;
      SetInput "strings"; Submit env_ok].

Definition w_second : world := exec second_flight (initial "key" empty_store).

End Scenario.

(** ** Streams of audio *)

(** The chunk the loop body takes from a message:
    [message.server_content.audio_chunks[0].data]. *)
Definition first_chunk (it : item) : option bytes :=
  match server_content (msg it) with
  | Some (chunk :: _) => Some chunk
  | Some [] | None => None
  end.

(** An iteration on which nothing goes wrong: the message carries audio,
    neither sink raises. *)
Definition clean (it : item) : bool :=
  bool_decide (is_Some (first_chunk it))
  && bool_decide (write_error it = None)
  && bool_decide (play_error it = None).

Definition chunks_of (its : list item) : list bytes := omap first_chunk its.

Definition yields (its : list item) : list job_event :=
  map (λ it, Resume (Yield it)) its.

(** [all(p(c) for c in s)] *)
Fixpoint all_chars (p : ascii → bool) (s : string) : bool :=
  match s with
  | EmptyString => true
  | String c s' => p c && all_chars p s'
  end.

(** The last character of a string. *)
Fixpoint last_char (s : string) : option ascii :=
  match s with
  | EmptyString => None
  | String c EmptyString => Some c
  | String _ s' => last_char s'
  end.

Definition first_char (s : string) : option ascii :=
  match s with
  | EmptyString => None
  | String c _ => Some c
  end.

(** The action by which the user moves the selection in the history. *)
Definition selects (a : action) : bool :=
  if a is SelectRow _ then true else false.

(** Actions that leave the operators alone: edits of the scene
    properties, stop requests and steps of the background loop. *)
Definition passive (a : action) : bool :=
  match a with
  | Submit _ | HostCancel | Tick => false
  | SetInput _ | SetOutputFolder _ | SelectRow _ | Stop | Background _ _ => true
  end.

(** ** The timeline operator: [COMPOSER4U_OT_AddAudioToTimeline] *)

Module Timeline.

(** A strip of the sequence editor. Meta strips are not modelled:
    [sequences_all] and [sequences] are the same flat list. *)
Record strip := {
  strip_name : string;
  strip_type : string;
  strip_filepath : string;
  strip_channel : Z;
  strip_frame_start : Z;
}.

(** The level of a [self.report]; the texts are left out. *)
Inductive level := INFO | WARNING | ERROR.

Record editor := {
  sequence_editor : option (list strip);   (* scene.sequence_editor *)
  reports : list level;
}.

Definition VSE_channel : Z := 1.

Definition report (l : level) (v : editor) : editor :=
  {| sequence_editor := sequence_editor v; reports := reports v ++ [l] |}.

(** [s.type == 'SOUND' and s.name.startswith("Composer4U_Scene_Music")] *)
Definition is_scene_music (s : strip) : bool :=
  String.eqb (strip_type s) "SOUND"
  && String.prefix "Composer4U_Scene_Music" (strip_name s).

Section Execute.

(** [bpy.path.abspath], and the name the host gives to a new strip (the
    requested name, with a numeric suffix when it is taken). *)
Variable abspath : string → string.
Variable unique_name : string → list strip → string.

(** [wave.open(path, 'rb')] and [getnframes()]: [None] when the file
    cannot be read as a WAV file. *)
Definition read_nframes (p : string) (st : store) : option nat :=
  files st !! p ≫= nframes.

(** [COMPOSER4U_OT_AddAudioToTimeline.execute]; [new_sound_error] is the
    exception raised inside the last [try] block, if any. *)
Definition execute (filepath : string) (new_sound_error : option string)
    (st : store) (v : editor) : editor * status :=
  let v0 := report INFO v in
  if negb (truthy filepath) || negb (path_exists filepath st)
  then (report ERROR v0, CANCELLED)
  else
    let absolute_audio_filepath := abspath filepath in
    if negb (path_exists absolute_audio_filepath st)
    then (report ERROR v0, CANCELLED)
    else
      let v1 := if (path_getsize absolute_audio_filepath st =? 0)%nat
                then report WARNING v0 else v0 in
      match read_nframes absolute_audio_filepath st with
      | None => (report ERROR v1, CANCELLED)
      | Some n =>
          let v2 := if (n =? 0)%nat then report WARNING v1 else v1 in
          let sequences := default [] (sequence_editor v2) in
          let kept := List.filter (λ s, negb (is_scene_music s)) sequences in
          match new_sound_error with
          | Some _ =>
              ({| sequence_editor := Some kept;
                  reports := reports v2 ++ [ERROR] |}, CANCELLED)
          | None =>
              let new_sound_strip :=
                {| strip_name := unique_name "Composer4U_Scene_Music" kept;
                   strip_type := "SOUND";
                   strip_filepath := absolute_audio_filepath;
                   strip_channel := VSE_channel;
                   strip_frame_start := 1 |} in
              ({| sequence_editor := Some (kept ++ [new_sound_strip]);
                  reports := reports v2 ++ [INFO] |}, FINISHED)
          end
      end.

End Execute.

End Timeline.

(** ** Lemmas on the segments of the task *)

Lemma release_ok_spec e :
  release_ok e ↔
  close_error e = None ∧ stop_stream_error e = None
  ∧ stream_close_error e = None ∧ terminate_error e = None.
Proof.
  unfold release_ok, release_errors.
  destruct (close_error e), (stop_stream_error e), (stream_close_error e),
    (terminate_error e); simpl;
    (split; [intros H; try discriminate H; auto | intros (?&?&?&?); congruence]).
Qed.

Lemma finally_spec c st r c' st' :
  finally c st = (r, c', st') →
  at_pc c' = at_pc c ∧ audio_filepath c' = audio_filepath c ∧ env c' = env c
  ∧ session c' = session c ∧ was_cancelled c' = was_cancelled c
  ∧ played c' = played c ∧ container st' = container st
  ∧ wav_writer c' = (if writer_closes c then Some Closed else wav_writer c)
  ∧ files st' = (if writer_closes c
                 then Wave.close (path_of c) (files st) else files st)
  ∧ (∀ e, r = Some e → ∃ t, e = PyException t ∧ t ∈ release_errors (env c))
  ∧ (release_ok (env c) →
       r = None
       ∧ output_stream c' = (λ _, Closed) <$> output_stream c
       ∧ p_audio c' = (λ _, Closed) <$> p_audio c).
Proof.
  unfold finally, and_then, close_writer, close_stream, terminate, writer_closes,
    release_ok, release_errors.
  destruct c as [k pr fo e x a w pa os wc se pl].
  destruct e as [? ? ? ? ? ? [t1|] [t2|] [t3|] [t4|]];
    destruct w as [hw|], os as [ho|], pa as [hp|];
    simpl; intros H; injection H as <- <- <-; simpl;
    split_and!; try reflexivity; try discriminate;
    try (intros ? [= <-]; eexists; split; [reflexivity | set_solver]);
    try (intros _; split_and!; reflexivity).
Qed.

Lemma leave_session_spec c :
  session (leave_session c) ≠ Some Open
  ∧ at_pc (leave_session c) = at_pc c
  ∧ audio_filepath (leave_session c) = audio_filepath c
  ∧ env (leave_session c) = env c
  ∧ wav_writer (leave_session c) = wav_writer c
  ∧ output_stream (leave_session c) = output_stream c
  ∧ p_audio (leave_session c) = p_audio c
  ∧ was_cancelled (leave_session c) = was_cancelled c
  ∧ played (leave_session c) = played c.
Proof.
  unfold leave_session. destruct (session c) eqn:E; simpl; rewrite ?E; naive_solver.
Qed.

Lemma close_finalized p fs f :
  Wave.close p fs !! p = Some f →
  header f = Some (length (payload f))
  ∧ on_disk f = HEADER_BYTES + length (payload f).
Proof.
  unfold Wave.close. rewrite lookup_alter_eq.
  destruct (fs !! p); simpl; [intros [= <-]; split; reflexivity | discriminate].
Qed.

Lemma remove_partial_spec c st :
  container (remove_partial c st) = container st
  ∧ ∀ p, audio_filepath c = Some p → truthy p = true →
         remove_error (env c) = None → files (remove_partial c st) !! p = None.
Proof.
  unfold remove_partial. split.
  - destruct (audio_filepath c) as [p|]; [|done].
    destruct (truthy p && path_exists p st); [|done].
    destruct (remove_error (env c)); done.
  - intros p -> Ht ->. rewrite Ht. simpl.
    unfold path_exists. case_bool_decide as Hex; simpl.
    + apply lookup_delete_eq.
    + destruct (files st !! p) eqn:E; [|done]. exfalso. apply Hex. eauto.
Qed.

(** What the [finally] clause and the way out establish, whatever came
    before. *)
Lemma leave_spec x c st c' st' :
  leave x (finally c st) = (c', st') →
  env c' = env c ∧ audio_filepath c' = audio_filepath c
  ∧ was_cancelled c' = was_cancelled c ∧ played c' = played c
  ∧ session c' = session c ∧ container st' = container st
  ∧ wav_writer c' = (if writer_closes c then Some Closed else wav_writer c)
  ∧ files st' = (if writer_closes c
                 then Wave.close (path_of c) (files st) else files st)
  ∧ (∃ y, at_pc c' = Done y
       ∧ (y = x ∨ ∃ t, y = Raised (PyException t) ∧ t ∈ release_errors (env c))
       ∧ (release_ok (env c) → y = x))
  ∧ (release_ok (env c) → session c ≠ Some Open → released c')
  ∧ (wav_writer c ≠ Some Closed → finalized c' st').
Proof.
  destruct (finally c st) as [[r c2] st2] eqn:Hf. simpl. intros [= <- <-].
  pose proof (finally_spec _ _ _ _ _ Hf)
    as (Hpc & Hp & He & Hse & Hwc & Hpl & Hco & Hw & Hfi & Hr & Hok).
  simpl. split_and!; auto.
  - destruct r as [e|].
    + destruct (Hr e eq_refl) as (t & -> & Ht). eexists. split; [reflexivity|].
      split; [eauto|]. intros Hrel. by destruct (Hok Hrel) as [? _].
    + eauto.
  - intros Hrel Hs. destruct (Hok Hrel) as (_ & Ho & Hpa).
    apply release_ok_spec in Hrel as (Hce & _).
    unfold released. simpl. rewrite Hw, Ho, Hpa, Hse. unfold writer_closes.
    rewrite Hce. destruct (wav_writer c), (output_stream c), (p_audio c);
      simpl; split_and!; done.
  - intros Hnc Hc f. simpl in Hc |- *. unfold path_of. simpl. rewrite Hp.
    rewrite Hw in Hc. destruct (writer_closes c); [|done].
    rewrite Hfi. apply close_finalized.
Qed.

Lemma fail_spec e c st c' st' :
  fail e c st = (c', st') →
  env c' = env c ∧ audio_filepath c' = audio_filepath c
  ∧ was_cancelled c' = was_cancelled c ∧ played c' = played c
  ∧ session c' = session c
  ∧ wav_writer c' = (if writer_closes c then Some Closed else wav_writer c)
  ∧ (∃ x, at_pc c' = Done x
       ∧ (x = body_exit e
          ∨ ∃ t, x = Raised (PyException t) ∧ t ∈ release_errors (env c))
       ∧ (release_ok (env c) → x = body_exit e))
  ∧ (release_ok (env c) → session c ≠ Some Open → released c')
  ∧ (wav_writer c ≠ Some Closed → finalized c' st')
  ∧ (is_CancelledError e = true →
       container st' = container st
       ∧ files st' = (if writer_closes c
                      then Wave.close (path_of c) (files st) else files st))
  ∧ (is_CancelledError e = false →
       cleaned c' st'
       ∧ files st' = (if writer_closes c
                      then Wave.close (path_of c) (files (remove_partial c st))
                      else files (remove_partial c st))).
Proof.
  unfold fail. intros H.
  destruct (except e c st) as [x st1] eqn:Hx.
  assert (Hx' : x = body_exit e).
  { unfold except, body_exit in *. destruct e; simpl in *; congruence. }
  apply leave_spec in H.
  destruct H as (He & Hp & Hwc & Hpl & Hse & Hco & Hw & Hfi & Hy & Hrel & Hfin).
  subst x. split_and!; auto.
  - intros Hc. unfold except in Hx. destruct e; simpl in *; try discriminate;
      injection Hx as <-; auto.
  - intros Hc. unfold except in Hx. destruct e; simpl in *; try discriminate.
    injection Hx as <-. simpl in *. split; [split|].
    + unfold dict_get. rewrite Hco. rewrite lookup_insert_eq. reflexivity.
    + intros p Hpp Ht Hr. rewrite Hp in Hpp. rewrite He in Hr.
      assert (Hgone : files (remove_partial c st) !! p = None)
        by (by apply (proj2 (remove_partial_spec c st))).
      rewrite Hfi. destruct (writer_closes c); [|assumption].
      unfold Wave.close, path_of. rewrite Hpp. simpl.
      rewrite lookup_alter_eq, Hgone. reflexivity.
    + exact Hfi.
Qed.

Lemma complete_spec c st c' st' :
  complete c st = (c', st') →
  env c' = env c ∧ audio_filepath c' = audio_filepath c
  ∧ was_cancelled c' = was_cancelled c ∧ played c' = played c
  ∧ session c' = session c
  ∧ wav_writer c' = (if writer_closes c then Some Closed else wav_writer c)
  ∧ (∃ x, at_pc c' = Done x
       ∧ (x = Returned
          ∨ ∃ t, x = Raised (PyException t) ∧ t ∈ release_errors (env c))
       ∧ (release_ok (env c) → x = Returned))
  ∧ (release_ok (env c) → session c ≠ Some Open → released c')
  ∧ (wav_writer c ≠ Some Closed → finalized c' st')
  ∧ container st' =
      (if was_cancelled c then container st
       else <["message" := PyStr "Music generated successfully."]> (container st))
  ∧ files st' = (if writer_closes c
                 then Wave.close (path_of c) (files st) else files st).
Proof.
  unfold complete. intros H. apply leave_spec in H.
  destruct H as (He & Hp & Hwc & Hpl & Hse & Hco & Hw & Hfi & Hy & Hrel & Hfin).
  split_and!; auto.
  - rewrite Hco. by destruct (was_cancelled c).
  - rewrite Hfi. by destruct (was_cancelled c).
Qed.

Section Preservation.

Variables (key prompt folder : string) (e0 : task_env) (st0 : store).

Local Abbreviation inv := (co_inv key prompt folder e0 st0).
Local Abbreviation p0 := (resolved key prompt folder e0 st0).

Lemma fail_inv e c st c' st' :
  fail e c st = (c', st') → session c ≠ Some Open → env c = e0 →
  was_cancelled c = false → wav_writer c ≠ Some Closed → inv c' st'.
Proof.
  intros H Hs He Hwc Hw. apply fail_spec in H.
  destruct H as (He' & _ & Hwc' & _ & Hse & _ & (x & Hpc & Hx & _) & Hrel & Hfin & _ & Hcl).
  split; [congruence|]. split; [congruence|]. rewrite Hpc.
  split_and!.
  - congruence.
  - intros Hok. apply Hrel; [by rewrite He|done].
  - by apply Hfin.
  - destruct Hx as [-> | (t & -> & _)]; [|done]. by destruct e.
  - intros t ->. destruct Hx as [Hx | (t' & [= <-] & Ht)].
    + left. apply Hcl. destruct e; try discriminate; reflexivity.
    + right. by rewrite <- He.
Qed.

Lemma complete_inv c st c' st' :
  complete c st = (c', st') → session c ≠ Some Open → env c = e0 →
  was_cancelled c = false → wav_writer c ≠ Some Closed → inv c' st'.
Proof.
  intros H Hs He Hwc Hw. apply complete_spec in H.
  destruct H as (He' & _ & Hwc' & _ & Hse & _ & (x & Hpc & Hx & _) & Hrel & Hfin & _).
  split; [congruence|]. split; [congruence|]. rewrite Hpc.
  split_and!.
  - congruence.
  - intros Hok. apply Hrel; [by rewrite He|done].
  - by apply Hfin.
  - by destruct Hx as [-> | (t & -> & _)].
  - intros t ->. destruct Hx as [Hx | (t' & [= <-] & Ht)]; [discriminate|].
    right. by rewrite <- He.
Qed.

Lemma open_writer_inv c st c' st' :
  open_writer c st = (c', st') →
  env c = e0 → at_pc c = AtStart → audio_filepath c = Some p0 →
  container st !! "audio_filepath" = Some (PyStr p0) →
  wav_writer c = None → was_cancelled c = false → session c = None →
  output_stream c = (if pyaudio_available e0 then Some Open else None) →
  p_audio c = (if pyaudio_available e0 then Some Open else None) →
  inv c' st'.
Proof.
  unfold open_writer. intros H He Hpc Hp Hco Hw Hwc Hse Hos Hpa.
  destruct (wave_open_error (env c)) as [err|].
  - eapply fail_inv; eauto; congruence.
  - injection H as <- <-. split; [simpl; congruence|]. split; [simpl; congruence|].
    simpl. constructor; simpl; auto.
    unfold path_of, Wave.open. rewrite Hp. simpl. rewrite lookup_insert_eq. eauto.
Qed.

Lemma start_inv c' st' :
  start (create key prompt folder e0) st0 = (c', st') → inv c' st'.
Proof.
  unfold start. fold p0.
  destruct (resolve_path (create key prompt folder e0) st0) as [p st1] eqn:Hr.
  assert (Hp : p = p0) by (unfold resolved; by rewrite Hr).
  subst p. simpl.
  destruct (pyaudio_available e0) eqn:Hpy.
  - destruct (device_open_error e0) as [err|].
    + intros H. eapply fail_inv; eauto; done.
    + intros H. eapply open_writer_inv; eauto; simpl; rewrite ?Hpy; auto.
      apply lookup_insert_eq.
  - intros H. eapply open_writer_inv; eauto; simpl; rewrite ?Hpy; auto.
    apply lookup_insert_eq.
Qed.

Lemma writeframes_streaming c st chunk k :
  at_pc c = AwaitReceive → streaming key prompt folder e0 st0 c st →
  ∀ c', at_pc c' = AwaitReceive → audio_filepath c' = audio_filepath c →
        wav_writer c' = wav_writer c → session c' = session c →
        output_stream c' = output_stream c → p_audio c' = p_audio c →
  streaming key prompt folder e0 st0 c'
    (with_files (writeframes (path_of c) chunk k (files st)) st).
Proof.
  intros Hpc [Hp Hco Hf Hw Hos Hpa Hse] c' Hpc' Hp' Hw' Hse' Hos' Hpa'.
  rewrite Hpc in Hse.
  constructor; simpl; try congruence.
  - unfold writeframes, path_of. rewrite Hp. simpl.
    rewrite lookup_alter_eq. destruct Hf as [f ->]. simpl. eauto.
  - rewrite Hpc'. congruence.
Qed.

Lemma loop_body_inv it c st c' st' :
  loop_body it c st = (c', st') → env c = e0 → was_cancelled c = false →
  at_pc c = AwaitReceive →
  streaming key prompt folder e0 st0 c st → inv c' st'.
Proof.
  intros H He Hwc Hpc Hs.
  destruct (leave_session_spec c) as (Hl1 & Hl2 & Hl3 & Hl4 & Hl5 & _ & _ & Hl8 & _).
  assert (Hopen : wav_writer (leave_session c) ≠ Some Closed)
    by (rewrite Hl5, (s_writer _ _ _ _ _ _ _ Hs); discriminate).
  unfold loop_body, current_task_cancelled in H. rewrite Hpc in H.
  destruct (server_content (msg it)) as [[|chunk rest]|].
  - eapply fail_inv; eauto; congruence.
  - destruct (write_error it).
    { eapply fail_inv; eauto; congruence. }
    destruct (output_stream c).
    + destruct (play_error it).
      { eapply fail_inv; eauto; congruence. }
      injection H as <- <-. split; [simpl; congruence|].
      split; [simpl; congruence|]. simpl. rewrite Hpc.
      by apply writeframes_streaming.
    + injection H as <- <-. split; [congruence|]. split; [congruence|].
      rewrite Hpc. by apply writeframes_streaming.
  - destruct (filtered_prompt (msg it)) as [[reason|text]|].
    + eapply fail_inv; eauto; congruence.
    + eapply fail_inv; eauto; congruence.
    + injection H as <- <-. split; [congruence|]. split; [congruence|].
      by rewrite Hpc.
Qed.

Lemma co_step_inv r c st c' st' :
  inv c st → _generate_music_async r c st = (c', st') → inv c' st'.
Proof.
  intros (He & Hwc & Hi) H. unfold _generate_music_async in H.
  destruct (leave_session_spec c) as (Hl1 & Hl2 & Hl3 & Hl4 & Hl5 & _ & _ & Hl8 & _).
  destruct (at_pc c) eqn:Hpc.
  - destruct Hi as [-> ->].
    destruct r as [| |it| |e]; try (injection H as <- <-; by split_and!).
    by apply start_inv.
  - pose proof Hi as [Hp Hco Hf Hw Hos Hpa Hse]. rewrite Hpc in Hse.
    destruct r;
      try (injection H as <- <-; split_and!; [done..|]; by rewrite Hpc).
    + injection H as <- <-. split_and!; [done..|]. simpl. by constructor.
    + eapply fail_inv; eauto; congruence.
  - pose proof Hi as [Hp Hco Hf Hw Hos Hpa Hse]. rewrite Hpc in Hse.
    destruct r;
      try (injection H as <- <-; split_and!; [done..|]; by rewrite Hpc).
    + injection H as <- <-. split_and!; [done..|]. simpl. by constructor.
    + eapply fail_inv; eauto; congruence.
  - pose proof Hi as [Hp Hco Hf Hw Hos Hpa Hse]. rewrite Hpc in Hse.
    destruct r;
      try (injection H as <- <-; split_and!; [done..|]; by rewrite Hpc).
    + injection H as <- <-. split_and!; [done..|]. simpl. by constructor.
    + eapply fail_inv; eauto; congruence.
  - pose proof Hi as [Hp Hco Hf Hw Hos Hpa Hse]. rewrite Hpc in Hse.
    destruct r;
      try (injection H as <- <-; split_and!; [done..|]; by rewrite Hpc).
    + eapply loop_body_inv; eauto.
    + eapply complete_inv; eauto; congruence.
    + eapply fail_inv; eauto; congruence.
  - injection H as <- <-. split_and!; [done..|]. by rewrite Hpc.
Qed.

End Preservation.

Section JobRuns.

Variables (key prompt folder : string) (e0 : task_env) (st0 : store).

Local Abbreviation jinv := (job_inv key prompt folder e0 st0).

Lemma set_state_handle x f :
  f = Pending ∨ f = Cancelled →
  _set_concurrent_future_state x f = Cancelled
  ∨ _set_concurrent_future_state x f = Finished x
    ∧ x ≠ Raised AsyncioCancelledError.
Proof.
  intros [-> | ->]; unfold _set_concurrent_future_state.
  - destruct x as [|[| |t]]; simpl; auto; right; done.
  - destruct x as [|[| |t]]; simpl; auto.
Qed.

Lemma fresh_inv : jinv (fresh (create key prompt folder e0)) st0.
Proof. split; [split_and!|]; simpl; auto. unfold handle_inv. simpl. auto. Qed.

Lemma job_step_inv ev j st j' st' :
  jinv j st → job_step ev j st = (j', st') → jinv j' st'.
Proof.
  intros [Hc Hh] H. destruct ev as [r|]; simpl in H.
  - unfold advance in H.
    destruct (at_pc (coro j)) eqn:Hpc;
      try (destruct (_generate_music_async r (coro j) st) as [c1 st1] eqn:Hs;
           injection H as <- <-;
           split; [by eapply co_step_inv|];
           unfold handle_inv in *; rewrite Hpc in Hh; simpl;
           destruct (at_pc c1); auto using set_state_handle).
    injection H as <- <-. by split.
  - injection H as <- <-. split; [done|].
    unfold handle_inv in *. simpl.
    destruct (at_pc (coro j));
      try (destruct Hh as [Hh | Hh]; rewrite Hh; simpl; auto; fail).
    destruct Hh as [Hh | [Hh Hx]]; rewrite Hh; simpl; auto.
Qed.

Lemma run_job_inv evs : ∀ j st j' st',
  jinv j st → run_job evs j st = (j', st') → jinv j' st'.
Proof.
  induction evs as [|ev evs IH]; intros j st j' st' Hi H; simpl in H.
  - by injection H as <- <-.
  - destruct (job_step ev j st) as [j1 st1] eqn:Hs.
    eapply IH; [|exact H]. by eapply job_step_inv.
Qed.

(** Every state a freshly submitted job can reach satisfies the invariant. *)
Lemma reachable_inv evs j st :
  run_job evs (fresh (create key prompt folder e0)) st0 = (j, st) → jinv j st.
Proof. apply run_job_inv, fresh_inv. Qed.

End JobRuns.
Import Scenario.

(** ** Cancellation *)

Lemma cancel_midstream key prompt folder e0 st0 c st r c' st' :
  co_inv key prompt folder e0 st0 c st →
  at_pc c = AwaitReceive →
  observes_cancellation r = true →
  _generate_music_async r c st = (c', st') →
  container st' = container st
  ∧ files st' = (if close_error e0 is Some _ then files st
                 else Wave.close (resolved key prompt folder e0 st0) (files st))
  ∧ played c' = played c
  ∧ audio_filepath c' = audio_filepath c
  ∧ ∃ x, at_pc c' = Done x
      ∧ (x = Returned ∨ x = Raised AsyncioCancelledError
         ∨ ∃ t, x = Raised (PyException t) ∧ t ∈ release_errors e0)
      ∧ (release_ok e0 → x = Returned ∨ x = Raised AsyncioCancelledError).
Proof.
  intros (He & _ & Hi) Hpc Hr H. rewrite Hpc in Hi.
  destruct Hi as [Hp Hco Hf Hw Hos Hpa Hse].
  unfold _generate_music_async in H. rewrite Hpc in H.
  destruct r as [| |it| |e]; try discriminate; simpl in Hr.
  destruct (leave_session_spec c) as (K1 & _ & K3 & K4 & K5 & _ & _ & _ & K9).
  apply fail_spec in H.
  destruct H as (_ & Hp' & _ & Hpl & _ & _ & (x & Hpc' & Hx & Hxok) & _ & _ & Hk & _).
  destruct (Hk Hr) as [Hco' Hfi].
  assert (Hb : body_exit e = Returned ∨ body_exit e = Raised AsyncioCancelledError)
    by (destruct e; simpl in *; auto; discriminate).
  unfold writer_closes in Hfi. rewrite K5, Hw, K4, He in Hfi.
  unfold path_of in Hfi. rewrite K3, Hp in Hfi. simpl in Hfi.
  rewrite K4, He in Hx, Hxok.
  split_and!; auto.
  - rewrite Hfi. by destruct (close_error e0).
  - congruence.
  - congruence.
  - exists x. split; [exact Hpc'|]. split.
    + destruct Hx as [-> | Hx]; [destruct Hb; auto | auto].
    + intros Hok. rewrite (Hxok Hok). exact Hb.
Qed.



Lemma close_payload p fs q :
  payload <$> Wave.close p fs !! q = payload <$> fs !! q.
Proof.
  unfold Wave.close. rewrite lookup_alter.
  destruct (decide _) as [<-|]; [|done]. by destruct (fs !! _).
Qed.

(** C4. The code on a chunk that the task receives after a stop has been
    requested, that is after [cancel()] has been called on its handle.
    The check at the top of the loop body answers [False], as it does
    whenever the running task asks: the chunk is written to the file and
    pushed to the device like any other, [was_cancelled] stays unset and
    the loop goes on to wait for the next message. The request takes
    effect only as the cancellation error raised at that [await]: then
    nothing more is written or played, the coroutine ends and the handle
    stays cancelled. *)
Theorem C4_chunk_after_stop_request_is_processed
    key prompt folder e0 st0 evs j st it chunk rest j' st' :
  run_job evs (fresh (create key prompt folder e0)) st0 = (j, st) →
  at_pc (coro j) = AwaitReceive →
  fut j = Cancelled →
  server_content (msg it) = Some (chunk :: rest) →
  write_error it = None → play_error it = None →
  job_step (Resume (Yield it)) j st = (j', st') →
  let p := resolved key prompt folder e0 st0 in
  current_task_cancelled (coro j) = false
  ∧ at_pc (coro j') = AwaitReceive
  ∧ was_cancelled (coro j') = false
  ∧ (∃ f, files st !! p = Some f
        ∧ files st' !! p = Some (append chunk (unflushed it) f))
  ∧ played (coro j')
    = (if pyaudio_available e0 then played (coro j) ++ [chunk]
       else played (coro j))
  ∧ fut j' = Cancelled
  ∧ (∀ j2 st2,
       job_step (Resume (Throw AsyncioCancelledError)) j' st' = (j2, st2) →
       (∃ x, at_pc (coro j2) = Done x)
       ∧ fut j2 = Cancelled
       ∧ played (coro j2) = played (coro j')
       ∧ payload <$> files st2 !! p = payload <$> files st' !! p).
Proof.
  intros Hrun Hpc Hfut Hsc Hwe Hpe Hstep. cbv zeta.
  pose proof (reachable_inv _ _ _ _ _ _ _ _ Hrun) as [Hc Hh].
  pose proof (job_step_inv _ _ _ _ _ _ _ _ _ _ (conj Hc Hh) Hstep) as [Hc' Hh'].
  simpl in Hstep. unfold advance in Hstep. rewrite Hpc in Hstep.
  destruct (_generate_music_async _ (coro j) st) as [c1 st1] eqn:Hs.
  injection Hstep as <- <-. cbn [coro fut] in *.
  pose proof Hc as (_ & Hwc & Hi). rewrite Hpc in Hi.
  destruct Hi as [Hp _ [f Hf] _ Hos _ _].
  unfold _generate_music_async in Hs. rewrite Hpc in Hs.
  unfold loop_body, current_task_cancelled in Hs |- *. rewrite Hpc in Hs |- *.
  rewrite Hsc, Hwe, Hpe, Hos in Hs.
  assert (Hpc1 : at_pc c1 = AwaitReceive)
    by (destruct (pyaudio_available e0); injection Hs as <- <-; exact Hpc).
  rewrite Hpc1 in *.
  split_and!; auto.
  - destruct (pyaudio_available e0); injection Hs as <- <-; exact Hwc.
  - exists f. split; [exact Hf|].
    assert (Hfi : files st1
                  = writeframes (path_of (coro j)) chunk (unflushed it) (files st))
      by (destruct (pyaudio_available e0); by injection Hs as <- <-).
    rewrite Hfi. unfold writeframes, path_of. rewrite Hp. simpl.
    by rewrite lookup_alter_eq, Hf.
  - destruct (pyaudio_available e0); by injection Hs as <- <-.
  - intros j2 st2 Hstep2. simpl in Hstep2. unfold advance in Hstep2.
    cbn [coro fut] in Hstep2. rewrite Hpc1 in Hstep2.
    destruct (_generate_music_async _ c1 st1) as [c2 st3] eqn:Hs2.
    injection Hstep2 as <- <-. cbn [coro fut].
    destruct (cancel_midstream _ _ _ _ _ _ _ (Throw AsyncioCancelledError)
                _ _ Hc' Hpc1 eq_refl Hs2)
      as (_ & Hfi & Hpl & _ & x & Hx & _).
    rewrite Hx, Hfut. split_and!; eauto.
    + by destruct x as [|[| |?]].
    + rewrite Hfi. destruct (close_error e0); [done|]. apply close_payload.
Qed.

Lemma C4_witness :
  let r := job_step (Resume (Yield it_audio)) (fst stopping1) (snd stopping1) in
  fut (fst stopping1) = Cancelled
  ∧ at_pc (coro (fst r)) = AwaitReceive
  ∧ payload <$> files (snd r) !! "/tmp/tmpabc.wav" = Some (chunk1 ++ chunk1)
  ∧ played (coro (fst r)) = [chunk1; chunk1].
Proof.
  assert (Hrun : ∀ r : job * store, r = (fst r, snd r)) by (by intros []).
  destruct (C4_chunk_after_stop_request_is_processed
              "key" "calm piano" "" env_ok empty_store
              (connect ++ [Resume (Yield it_audio); CancelHandle])
              (fst stopping1) (snd stopping1) it_audio chunk1 []
              _ _ (Hrun _) eq_refl eq_refl eq_refl eq_refl eq_refl (Hrun _))
    as (_ & H2 & _ & (f & Hf & H4) & H5 & _).
  cbv zeta. split; [reflexivity|]. split; [exact H2|].
  split; [|rewrite H5; reflexivity].
  change (resolved "key" "calm piano" "" env_ok empty_store)
    with "/tmp/tmpabc.wav" in Hf, H4.
  rewrite H4. vm_compute in Hf. injection Hf as <-. reflexivity.
Defined.

(** ** Failure *)




(** C6, as stated, fails: the device write raises on the first chunk; the
    task fails with that error and the artifact is removed. *)
Lemma C6_counterexample :
  fut (fst underrun) = Finished (Raised (PyException "[Errno -9999] host error"))
  ∧ files (snd underrun) !! "/tmp/tmpabc.wav" = None
  ∧ dict_get (container (snd underrun)) "audio_filepath" = PyNone.
Proof. split_and!; vm_compute; reflexivity. Qed.

(** C6, amended. The chunk is appended to the file before the device
    write is attempted, but an error of the device write is not caught in
    the loop: it ends the task like any other exception. The coroutine
    ends with that error (or, if a call of the cleanup raises in turn,
    with the error of that call) and the handle, if pending, finishes
    with it; the path in the result container is cleared; the file is
    removed, unless [os.remove] raises, in which case it stays with the
    chunk appended. *)
Theorem C6_device_error_fails_task j st it chunk rest err h j' st' :
  at_pc (coro j) = AwaitReceive →
  server_content (msg it) = Some (chunk :: rest) →
  write_error it = None →
  output_stream (coro j) = Some h →
  play_error it = Some err →
  job_step (Resume (Yield it)) j st = (j', st') →
  (∃ t, at_pc (coro j') = Done (Raised (PyException t))
      ∧ (t = err ∨ t ∈ release_errors (env (coro j)))
      ∧ (release_ok (env (coro j)) → t = err)
      ∧ (fut j = Pending → fut j' = Finished (Raised (PyException t))))
  ∧ dict_get (container st') "audio_filepath" = PyNone
  ∧ played (coro j') = played (coro j)
  ∧ (∀ p, audio_filepath (coro j) = Some p → truthy p = true →
          remove_error (env (coro j)) = None → files st' !! p = None)
  ∧ (∀ p f, audio_filepath (coro j) = Some p →
            is_Some (remove_error (env (coro j))) →
            files st !! p = Some f →
            files st' !! p
            = Some (if writer_closes (coro j)
                    then finalize (append chunk (unflushed it) f)
                    else append chunk (unflushed it) f)).
Proof.
  intros Hpc Hsc Hwe Hos Hpe Hstep.
  simpl in Hstep. unfold advance in Hstep. rewrite Hpc in Hstep.
  destruct (_generate_music_async (Yield it) (coro j) st) as [c1 st1] eqn:Hs.
  injection Hstep as <- <-. simpl.
  unfold _generate_music_async in Hs. rewrite Hpc in Hs.
  unfold loop_body, current_task_cancelled in Hs.
  rewrite Hpc, Hsc, Hwe, Hos, Hpe in Hs.
  destruct (leave_session_spec (coro j))
    as (K1 & K2 & K3 & K4 & K5 & K6 & K7 & K8 & K9).
  apply fail_spec in Hs.
  destruct Hs as (He & Hp & _ & Hpl & _ & _ & (x & Hpc' & Hx & Hxok) & _ & _ & _ & Hcl).
  destruct (Hcl eq_refl) as [[Hco Hrm] Hfi].
  rewrite K4 in Hx, Hxok. rewrite Hpc'.
  assert (Ht : ∃ t, x = Raised (PyException t)
                    ∧ (t = err ∨ t ∈ release_errors (env (coro j)))
                    ∧ (release_ok (env (coro j)) → t = err)).
  { destruct Hx as [-> | (t & -> & Ht)].
    - exists err. auto.
    - exists t. split; [done|]. split; [auto|]. intros Hok.
      by injection (Hxok Hok) as ->. }
  destruct Ht as (t & -> & Ht1 & Ht2).
  split_and!; auto.
  - exists t. split_and!; auto. intros ->. reflexivity.
  - congruence.
  - intros p Hpp Ht Hr. apply Hrm; congruence.
  - intros p f Hpp [m Hr] Hf. rewrite Hfi.
    assert (Hkeep : files (remove_partial (leave_session (coro j))
                     (with_files (writeframes (path_of (coro j)) chunk
                                    (unflushed it) (files st)) st))
                    !! p = Some (append chunk (unflushed it) f)).
    { unfold remove_partial. rewrite K3, Hpp, K4, Hr.
      destruct (truthy p && _); simpl; unfold writeframes, path_of;
        rewrite Hpp; simpl; by rewrite lookup_alter_eq, Hf. }
    unfold writer_closes. rewrite K5, K4.
    destruct (bool_decide _ && bool_decide _); [|exact Hkeep].
    revert Hkeep. generalize (files (remove_partial (leave_session (coro j))
      (with_files (writeframes (path_of (coro j)) chunk (unflushed it)
                     (files st)) st))).
    intros fs Hkeep. unfold Wave.close, path_of. rewrite K3, Hpp. simpl.
    by rewrite lookup_alter_eq, Hkeep.
Qed.

Lemma C6_witness :
  at_pc (coro (fst underrun)) = Done (Raised (PyException "[Errno -9999] host error"))
  ∧ played (coro (fst underrun)) = [].
Proof.
  destruct (C6_device_error_fails_task
              (fst (waiting env_ok)) (snd (waiting env_ok)) it_underrun
              chunk1 [] "[Errno -9999] host error" Open
              (fst underrun) (snd underrun))
    as ((t & H1 & _ & H2 & _) & _ & H4 & _); try (vm_compute; reflexivity).
  rewrite <- (H2 eq_refl). split; [exact H1|]. rewrite H4. vm_compute. reflexivity.
Defined.

(** ** Release of resources *)

(** C5. The code on a stop request. For a handle that ends with a result
    or an exception the order is the one the claim gives: the handle
    holds the outcome of a coroutine that has ended, and when that
    coroutine ended the session was released, the [finally] clause had
    run and, if none of its calls raised, it had closed the writer (the
    header records the length of the data written), the device stream and
    PyAudio. A stop request breaks that order: [cancel()] makes the handle
    report completion at once, while the coroutine is still suspended in
    the receive loop with the writer, the session and the device open,
    and the next tick of [modal] reconciles the outcome in that state. *)
Theorem C5_handle_done_before_release key prompt folder e0 st0 evs j st :
  run_job evs (fresh (create key prompt folder e0)) st0 = (j, st) →
  (∀ x, fut j = Finished x → at_pc (coro j) = Done x)
  ∧ (∀ x, at_pc (coro j) = Done x →
       session (coro j) ≠ Some Open
       ∧ (release_ok e0 → released (coro j))
       ∧ (wav_writer (coro j) = Some Closed →
          ∀ f, files st !! path_of (coro j) = Some f →
               header f = Some (length (payload f))
               ∧ nframes f = Some (length (payload f) / frame_bytes)))
  ∧ (at_pc (coro j) = AwaitReceive → fut j = Pending →
     let j' := fst (job_step CancelHandle j st) in
     done (fut j') = true
     ∧ at_pc (coro j') = AwaitReceive
     ∧ wav_writer (coro j') = Some Open
     ∧ session (coro j') = Some Open
     ∧ (pyaudio_available e0 = true →
        output_stream (coro j') = Some Open ∧ p_audio (coro j') = Some Open)
     ∧ ¬ released (coro j')
     ∧ (∀ w, current_future w = Some (fut j') →
          snd (modal w) = FINISHED
          ∧ _async_task_future (fst (modal w)) = None)).
Proof.
  intros Hrun.
  pose proof (reachable_inv _ _ _ _ _ _ _ _ Hrun) as [(He & _ & Hc) Hh].
  split_and!.
  - intros x Hfut. unfold handle_inv in Hh. rewrite Hfut in Hh.
    destruct (at_pc (coro j)); try (destruct Hh; discriminate).
    destruct Hh as [Hh | [[= <-] _]]; [discriminate | reflexivity].
  - intros x Hpc. rewrite Hpc in Hc. destruct Hc as (Hse & Hrel & Hfin & _).
    split_and!; auto. intros Hw f Hf.
    destruct (Hfin Hw f Hf) as [Hhd Hsz]. split; [exact Hhd|].
    unfold nframes. rewrite Hhd, Hsz. simpl.
    destruct (Nat.ltb_spec (HEADER_BYTES + length (payload f)) HEADER_BYTES);
      [lia | reflexivity].
  - intros Hpc Hfut. cbv zeta. cbn [job_step fst cancel_job coro fut].
    rewrite Hpc in Hc. destruct Hc as [_ _ _ Hw Hos Hpa Hse].
    rewrite Hpc in Hse. rewrite Hfut, Hpc. split_and!; auto.
    + intros Hpy. rewrite Hos, Hpa, Hpy. done.
    + intros (Hn & _). by rewrite Hw in Hn.
    + intros w Hcur. unfold modal. rewrite Hcur. simpl. done.
Qed.

Lemma C5_witness :
  let j' := fst (job_step CancelHandle (fst streaming1) (snd streaming1)) in
  done (fut j') = true
  ∧ wav_writer (coro j') = Some Open
  ∧ session (coro j') = Some Open
  ∧ output_stream (coro j') = Some Open
  ∧ p_audio (coro j') = Some Open.
Proof.
  assert (Hrun : ∀ r : job * store, r = (fst r, snd r)) by (by intros []).
  destruct (C5_handle_done_before_release
              "key" "calm piano" "" env_ok empty_store
              (connect ++ [Resume (Yield it_audio)]) _ _ (Hrun _))
    as (_ & _ & H).
  destruct (H eq_refl eq_refl) as (H1 & _ & H3 & H4 & H5 & _).
  destruct (H5 eq_refl) as [H6 H7].
  cbv zeta. split_and!; assumption.
Defined.

(** ** Reconciliation in [modal] *)




(** C9. The code at the failing input: the user stops the
    generation before any chunk has arrived and the task finishes before
    the next timer tick. Closing the writer leaves a file that holds only
    the 44-byte header, with no frame; its size is not zero, so [modal]
    records its path as the last audio path and calls the timeline
    operator with it. *)
Theorem C9_header_only_artifact_is_loaded :
  current_future w_stopped0 = Some Cancelled
  ∧ (∀ j, _async_tasks w_stopped0 !! 0 = Some j → played (coro j) = [])
  ∧ files (shared w_stopped0) !! "/tmp/tmpabc.wav"
    = Some {| header := Some 0; payload := []; on_disk := 44 |}
  ∧ nframes <$> files (shared w_stopped0) !! "/tmp/tmpabc.wav" = Some (Some 0)
  ∧ path_getsize "/tmp/tmpabc.wav" (shared w_stopped0) = 44
  ∧ composer4u_last_audio_path w_stopped0 = ""
  ∧ composer4u_last_audio_path (step Tick w_stopped0) = "/tmp/tmpabc.wav"
  ∧ timeline_calls (step Tick w_stopped0) = ["/tmp/tmpabc.wav"]
  ∧ composer4u_history (step Tick w_stopped0)
    = ["Prompt: calm piano"; "Composer4U: Generation stopped by user."].
Proof.
  split_and!; try (vm_compute; reflexivity).
  intros j. vm_compute. intros [= <-]. reflexivity.
Qed.


(** ** The operators, over any sequence of actions *)

Lemma exec_snoc acts a w : exec (acts ++ [a]) w = step a (exec acts w).
Proof. unfold exec. by rewrite foldl_app. Qed.

Lemma modal_fields w :
  (_async_tasks (fst (modal w)) = _async_tasks w
   ∧ shared (fst (modal w)) = shared w)
  ∧ ((fst (modal w) = w)
     ∨ (∃ f a m w1, current_future w = Some f ∧ done f = true
          ∧ modal_try f w = Some (a, m, w1)
          ∧ _async_task_future (fst (modal w)) = None
          ∧ composer4u_history (fst (modal w))
            = composer4u_history w ++ ["Composer4U: " +:+ m])).
Proof.
  unfold modal.
  destruct (current_future w) as [f|] eqn:Hf; [|auto].
  destruct (done f) eqn:Hd; [|auto].
  destruct (modal_try f w) as [[[a m] w1]|] eqn:Ht; [|auto].
  assert (Hw1 : composer4u_history w1 = composer4u_history w
                ∧ _async_tasks w1 = _async_tasks w ∧ shared w1 = shared w).
  { unfold modal_try in Ht. destruct (result f) as [|e].
    - by injection Ht as <- <- <-.
    - destruct (is_Exception e); [|discriminate].
      destruct (is_CancelledError e).
      + injection Ht as <- <- <-. by destruct (has_audio _ _).
      + by injection Ht as <- <- <-. }
  destruct Hw1 as (Hh & Hta & Hsh).
  assert (Hw2 : ∀ w2, composer4u_history (modal_update_path a m w2)
                      = composer4u_history w2
                    ∧ _async_tasks (modal_update_path a m w2) = _async_tasks w2
                    ∧ shared (modal_update_path a m w2) = shared w2).
  { intros w2. unfold modal_update_path.
    destruct (has_audio a (shared w2)); [done|].
    by destruct (contains "Error" m || contains "No audio file" m). }
  destruct (Hw2 w1) as (Hh2 & Hta2 & Hsh2).
  simpl. split; [split; congruence|].
  right. exists f, a, m, w1. split_and!; auto. congruence.
Qed.

Lemma cancel_current_fields w :
  composer4u_history (cancel_current w) = composer4u_history w
  ∧ composer4u_last_audio_path (cancel_current w) = composer4u_last_audio_path w
  ∧ _async_task_future (cancel_current w) = _async_task_future w
  ∧ composer4u_input (cancel_current w) = composer4u_input w.
Proof.
  unfold cancel_current. destruct (_async_task_future w) eqn:E; simpl; by rewrite ?E.
Qed.

Lemma background_fields i r w :
  composer4u_history (background i r w) = composer4u_history w
  ∧ composer4u_last_audio_path (background i r w) = composer4u_last_audio_path w
  ∧ _async_task_future (background i r w) = _async_task_future w
  ∧ composer4u_input (background i r w) = composer4u_input w.
Proof.
  unfold background. destruct (_async_tasks w !! i); [|done].
  by destruct (advance r _ _).
Qed.

Lemma request_stop_fields w :
  composer4u_history (fst (request_stop w)) = composer4u_history w
  ∧ composer4u_last_audio_path (fst (request_stop w)) = composer4u_last_audio_path w
  ∧ _async_task_future (fst (request_stop w)) = _async_task_future w
  ∧ composer4u_input (fst (request_stop w)) = composer4u_input w.
Proof.
  unfold request_stop, stop_execute. destruct (stop_poll w); [|done].
  destruct (_async_task_future w) eqn:E; [|done]. simpl.
  pose proof (cancel_current_fields w) as (?&?&?&?). split_and!; congruence.
Qed.

(** What an accepted [invoke] does. *)
Lemma invoke_accepted e w w1 :
  invoke e w = (w1, RUNNING_MODAL) →
  composer4u_input w1 = ""
  ∧ composer4u_last_audio_path w1 = ""
  ∧ composer4u_history w1
    = composer4u_history w ++ ["Prompt: " +:+ strip (composer4u_input w)]
  ∧ _async_task_future w1 = Some (length (_async_tasks w))
  ∧ _async_tasks w1
    = _async_tasks w ++ [fresh (create (prefs_api_key w) (strip (composer4u_input w))
                                  (strip (composer4u_output_folder w)) e)]
  ∧ truthy (strip (composer4u_input w)) = true.
Proof.
  unfold invoke.
  destruct (truthy (prefs_api_key w)); simpl; [|discriminate].
  destruct (truthy (strip (composer4u_input w))) eqn:Hp; simpl; [|discriminate].
  destruct (truthy (strip (composer4u_output_folder w)) && _); [discriminate|].
  intros [= <-]. simpl. auto 10.
Qed.

Lemma invoke_rejected e w w1 s :
  invoke e w = (w1, s) → s ≠ RUNNING_MODAL → w1 = w.
Proof.
  unfold invoke.
  destruct (truthy (prefs_api_key w)); simpl; [|by intros [= <- <-]].
  destruct (truthy (strip (composer4u_input w))); simpl; [|by intros [= <- <-]].
  destruct (truthy (strip (composer4u_output_folder w)) && _); [by intros [= <- <-]|].
  intros [= <- <-]. done.
Qed.

Lemma submit_cases e w :
  fst (submit e w) = w
  ∨ (poll w = true ∧ invoke e w = (fst (submit e w), RUNNING_MODAL)).
Proof.
  unfold submit. destruct (poll w); [|auto].
  destruct (invoke e w) as [w1 s] eqn:Hi. simpl.
  destruct s; [auto | left ..]; by eapply invoke_rejected.
Qed.

Lemma step_history_prefix a w :
  composer4u_history w `prefix_of` composer4u_history (step a w).
Proof.
  destruct a as [s|s|z|e| | | |i r]; simpl; try reflexivity.
  - destruct (submit_cases e w) as [-> | [_ Hi]]; [reflexivity|].
    apply invoke_accepted in Hi. destruct Hi as (_ & _ & -> & _).
    by apply prefix_app_r.
  - by rewrite (proj1 (request_stop_fields w)).
  - destruct (modal_fields w) as [_ [-> | (f & a & m & w1 & _ & _ & _ & _ & ->)]];
      [reflexivity | by apply prefix_app_r].
  - unfold cancel. simpl. destruct (stop_poll w); [|reflexivity].
    by rewrite (proj1 (cancel_current_fields w)).
  - by rewrite (proj1 (background_fields i r w)).
Qed.

Lemma step_tasks_length a w :
  (length (_async_tasks w) ≤ length (_async_tasks (step a w)))%nat.
Proof.
  destruct a as [s|s|z|e| | | |i r]; simpl; try reflexivity.
  - destruct (submit_cases e w) as [-> | [_ Hi]]; [reflexivity|].
    apply invoke_accepted in Hi. destruct Hi as (_ & _ & _ & _ & -> & _).
    rewrite length_app. lia.
  - unfold request_stop, stop_execute. destruct (stop_poll w); [|reflexivity].
    unfold cancel_current. destruct (_async_task_future w); [|reflexivity].
    simpl. by rewrite length_alter.
  - by rewrite (proj1 (proj1 (modal_fields w))).
  - unfold cancel, cancel_current. destruct (stop_poll w); [|reflexivity].
    destruct (_async_task_future w); [|reflexivity]. simpl. by rewrite length_alter.
  - unfold background. destruct (_async_tasks w !! i); [|reflexivity].
    destruct (advance r _ _). simpl. by rewrite length_insert.
Qed.

(** A handle the operator holds after a step was held before it, and the
    step has left the log alone. *)
Lemma held_step i a w :
  i < length (_async_tasks w) →
  _async_task_future (step a w) = Some i →
  _async_task_future w = Some i
  ∧ composer4u_history (step a w) = composer4u_history w.
Proof.
  intros Hi. destruct a as [s|s|z|e| | | |k r]; simpl; try done.
  - destruct (submit_cases e w) as [-> | [_ Hinv]]; [done|].
    apply invoke_accepted in Hinv. destruct Hinv as (_ & _ & _ & -> & _).
    intros [= <-]. lia.
  - by destruct (request_stop_fields w) as (-> & _ & -> & _).
  - destruct (modal_fields w)
      as [_ [-> | (f & a & m & w1 & _ & _ & _ & -> & _)]]; done.
  - by destruct (background_fields k r w) as (-> & _ & -> & _).
Qed.

(** The three ways in which the operator gives up a handle. *)
Lemma released_step i a w :
  _async_task_future w = Some i →
  _async_task_future (step a w) ≠ Some i →
  (a = Tick ∧ ∃ m, composer4u_history (step a w)
                   = composer4u_history w ++ ["Composer4U: " +:+ m])
  ∨ (a = HostCancel ∧ composer4u_history (step a w) = composer4u_history w)
  ∨ (∃ e, a = Submit e
          ∧ ∃ p, composer4u_history (step a w)
                 = composer4u_history w ++ ["Prompt: " +:+ p]).
Proof.
  intros Hs. destruct a as [s|s|z|e| | | |k r]; simpl; try done.
  - destruct (submit_cases e w) as [-> | [_ Hinv]]; [done|].
    apply invoke_accepted in Hinv. destruct Hinv as (_ & _ & -> & _).
    intros _. right. right. eauto.
  - by destruct (request_stop_fields w) as (_ & _ & -> & _).
  - destruct (modal_fields w)
      as [_ [-> | (f & a & m & w1 & _ & _ & _ & _ & ->)]]; [done|].
    intros _. left. eauto.
  - intros _. right. left. split; [done|].
    unfold cancel. simpl. destruct (stop_poll w); [|reflexivity].
    by rewrite (proj1 (cancel_current_fields w)).
  - by destruct (background_fields k r w) as (_ & _ & -> & _).
Qed.

Lemma held_exec i h acts : ∀ w,
  i < length (_async_tasks w) →
  (_async_task_future w = Some i → composer4u_history w = h) →
  i < length (_async_tasks (exec acts w))
  ∧ (_async_task_future (exec acts w) = Some i →
     _async_task_future w = Some i ∧ composer4u_history (exec acts w) = h).
Proof.
  induction acts as [|a acts IH] using rev_ind; intros w Hi Hw; [by auto|].
  rewrite exec_snoc. destruct (IH w Hi Hw) as [Hi' Hw'].
  split.
  - eapply Nat.lt_le_trans; [exact Hi' | apply step_tasks_length].
  - intros Hs. destruct (held_step _ _ _ Hi' Hs) as [Hs' ->]. auto.
Qed.

(** C8, as stated, fails where the host cancels the operator: the
    submission was accepted and one chunk received; [cancel()] cancels the
    handle and forgets it; the task ends cancelled, but no tick finds a
    handle to reconcile, and the log keeps the one entry of the prompt. *)
Lemma C8_counterexample :
  composer4u_history (exec host_cancelled ready) = ["Prompt: calm piano"]
  ∧ _async_task_future (exec host_cancelled ready) = None
  ∧ (λ j, (fut j, at_pc (coro j))) <$> _async_tasks (exec host_cancelled ready) !! 0
    = Some (Cancelled, Done (Raised AsyncioCancelledError)).
Proof. split_and!; vm_compute; reflexivity. Qed.

(** C8, amended. An accepted submission appends the one ["Prompt: "]
    entry and makes its handle the one the operator holds; for as long
    as the operator holds that handle the log stays as it is. The
    operator gives the handle up in one of three ways: a tick of [modal]
    reconciles the outcome and appends one ["Composer4U: "] entry (and
    every tick that finds the handle done does so, whatever the outcome:
    the log has then grown by exactly two entries); the host cancels the
    operator, and [cancel()] appends nothing; or a further submission is
    accepted, which appends its own ["Prompt: "] entry. Once given up,
    the handle is never held again. No action ever shortens the log. *)
Theorem C8_history_entries_per_submission e w w1 acts :
  submit e w = (w1, Some RUNNING_MODAL) →
  let i := length (_async_tasks w) in
  let h := composer4u_history w ++ ["Prompt: " +:+ strip (composer4u_input w)] in
  let w2 := exec acts w1 in
  (composer4u_history w1 = h ∧ _async_task_future w1 = Some i)
  ∧ (_async_task_future w2 = Some i → composer4u_history w2 = h)
  ∧ (∀ a, _async_task_future w2 = Some i →
          _async_task_future (step a w2) ≠ Some i →
          (a = Tick ∧ ∃ m, composer4u_history (step a w2)
                           = h ++ ["Composer4U: " +:+ m])
          ∨ (a = HostCancel ∧ composer4u_history (step a w2) = h)
          ∨ (∃ e', a = Submit e'
                   ∧ ∃ p, composer4u_history (step a w2)
                          = h ++ ["Prompt: " +:+ p]))
  ∧ (∀ f, _async_task_future w2 = Some i →
          current_future w2 = Some f → done f = true →
          result f ≠ Raised AsyncioCancelledError →
          _async_task_future (step Tick w2) = None
          ∧ length (composer4u_history (step Tick w2))
            = length (composer4u_history w) + 2)
  ∧ (_async_task_future w2 ≠ Some i →
     ∀ acts', _async_task_future (exec acts' w2) ≠ Some i)
  ∧ (∀ a w', composer4u_history w' `prefix_of` composer4u_history (step a w')).
Proof.
  intros Hsub. cbv zeta.
  assert (Hinv : invoke e w = (w1, RUNNING_MODAL)).
  { unfold submit in Hsub. destruct (poll w); [|discriminate].
    destruct (invoke e w) as [w1' s]. by injection Hsub as <- <-. }
  destruct (invoke_accepted _ _ _ Hinv) as (_ & _ & Hh1 & Hslot1 & Hta1 & _).
  set (h := composer4u_history w ++ ["Prompt: " +:+ strip (composer4u_input w)]) in *.
  set (i := length (_async_tasks w)) in *.
  assert (Hi1 : i < length (_async_tasks w1)).
  { rewrite Hta1, length_app. simpl. unfold i. lia. }
  destruct (held_exec i h acts w1 Hi1 (λ _, Hh1)) as [Hi2 Hheld].
  split_and!; auto.
  - intros Hs. by destruct (Hheld Hs).
  - intros a Hs Hleft. destruct (Hheld Hs) as [_ <-].
    by apply (released_step i).
  - intros f Hs Hf Hd Hr. destruct (Hheld Hs) as [_ Hh2].
    simpl. unfold modal. rewrite Hf, Hd.
    assert (Ht : ∃ a m w3, modal_try f (exec acts w1) = Some (a, m, w3)).
    { unfold modal_try. destruct (result f) as [|[| |t]]; simpl; eauto.
      by destruct Hr. }
    destruct Ht as (a & m & w3 & Ht).
    destruct (modal_fields (exec acts w1))
      as [_ [Hsame | (f' & a' & m' & w' & _ & _ & _ & Hs' & Hh)]].
    + unfold modal in Hsame. rewrite Hf, Hd, Ht in Hsame. simpl in Hsame.
      apply (f_equal _async_task_future) in Hsame. simpl in Hsame.
      congruence.
    + unfold modal in Hs', Hh. rewrite Hf, Hd in Hs', Hh.
      split; [exact Hs'|]. rewrite Hh, Hh2. unfold h.
      rewrite !length_app. simpl. lia.
  - intros Hgone acts' Hs.
    destruct (held_exec i h acts' (exec acts w1) Hi2 (λ Hs', proj2 (Hheld Hs')))
      as [_ Hback].
    by destruct (Hback Hs).
  - apply step_history_prefix.
Qed.

Lemma C8_witness :
  let w1 := fst (submit env_ok ready) in
  let w2 := exec stop_after_one w1 in
  _async_task_future (step Tick w2) = None
  ∧ length (composer4u_history (step Tick w2))
    = length (composer4u_history ready) + 2.
Proof.
  destruct (C8_history_entries_per_submission
              env_ok ready (fst (submit env_ok ready)) stop_after_one)
    as (_ & _ & _ & H4 & _); try (vm_compute; reflexivity).
  assert (Hd : result Cancelled ≠ Raised AsyncioCancelledError) by discriminate.
  assert (Hs : _async_task_future (exec stop_after_one (fst (submit env_ok ready)))
               = Some (length (_async_tasks ready))) by (vm_compute; reflexivity).
  assert (Hf : current_future (exec stop_after_one (fst (submit env_ok ready)))
               = Some Cancelled) by (vm_compute; reflexivity).
  cbv zeta. exact (H4 Cancelled Hs Hf eq_refl Hd).
Defined.

(** ** One generation at a time *)

Lemma advance_done r j st :
  done (fut j) = true → done (fut (fst (advance r j st))) = true.
Proof.
  intros Hd. unfold advance.
  destruct (at_pc (coro j)); try exact Hd;
    destruct (_generate_music_async r (coro j) st) as [c1 st1]; simpl;
    destruct (at_pc c1); try exact Hd;
    unfold _set_concurrent_future_state;
    destruct (fut j); try discriminate; by destruct x as [|[| |?]].
Qed.

Lemma current_future_lookup w f :
  current_future w = Some f →
  ∃ i j, _async_task_future w = Some i ∧ _async_tasks w !! i = Some j ∧ fut j = f.
Proof.
  unfold current_future. destruct (_async_task_future w) as [i|]; [|discriminate].
  simpl. destruct (_async_tasks w !! i) as [j|] eqn:Hj; [|discriminate].
  simpl. intros [= <-]. eauto.
Qed.

Lemma single_live_current w i j :
  single_live w → _async_tasks w !! i = Some j → done (fut j) = false →
  current_future w = Some (fut j).
Proof.
  intros Hs Hj Hd. unfold current_future. rewrite (Hs i j Hj Hd). simpl.
  by rewrite Hj.
Qed.

Lemma single_live_cancel_current w :
  single_live w → single_live (cancel_current w).
Proof.
  intros Hs i j. unfold cancel_current.
  destruct (_async_task_future w) as [k|] eqn:Hk; [|apply Hs].
  simpl. intros Hj Hd. rewrite Hk.
  destruct (decide (k = i)) as [->|Hne]; [reflexivity|].
  rewrite list_lookup_alter_ne in Hj by done.
  rewrite <- Hk. by apply (Hs i j).
Qed.

Lemma single_live_step a w : single_live w → single_live (step a w).
Proof.
  intros Hs. destruct a as [s|s|z|e| | | |k r]; simpl.
  - exact Hs.
  - exact Hs.
  - exact Hs.
  - destruct (submit_cases e w) as [-> | [Hp Hi]]; [exact Hs|].
    apply invoke_accepted in Hi. destruct Hi as (_ & _ & _ & Hslot & Hta & _).
    intros i j. rewrite Hslot, Hta. intros Hj Hd.
    destruct (decide (i < length (_async_tasks w))) as [Hlt|Hge].
    + rewrite lookup_app_l in Hj by done.
      pose proof (single_live_current _ _ _ Hs Hj Hd) as Hc.
      unfold poll in Hp. rewrite Hc, Hd in Hp.
      destruct (genai_loaded w); simpl in Hp; [|discriminate].
      by rewrite andb_false_r in Hp.
    + apply lookup_lt_Some in Hj. rewrite length_app in Hj. simpl in Hj.
      f_equal. lia.
  - unfold request_stop, stop_execute. destruct (stop_poll w); [|exact Hs].
    destruct (_async_task_future w) eqn:E; [|exact Hs]. simpl.
    by apply single_live_cancel_current.
  - destruct (modal_fields w)
      as [[Hta _] [-> | (f & a & m & w1 & Hf & Hd & _ & Hslot & _)]]; [exact Hs|].
    intros i j. rewrite Hta. intros Hj Hdj.
    pose proof (single_live_current _ _ _ Hs Hj Hdj) as Hc.
    rewrite Hf in Hc. injection Hc as ->. congruence.
  - unfold cancel. intros i j. simpl.
    destruct (stop_poll w) eqn:Hsp.
    + intros Hj Hd. exfalso.
      pose proof (single_live_cancel_current _ Hs i j Hj Hd) as Hslot.
      unfold cancel_current in Hj, Hslot.
      destruct (_async_task_future w) as [k|] eqn:Hk;
        [|rewrite Hk in Hslot; discriminate].
      simpl in Hj, Hslot. rewrite Hk in Hslot. injection Hslot as ->.
      rewrite list_lookup_alter_eq in Hj.
      destruct (_async_tasks w !! i) as [j0|]; [|discriminate].
      injection Hj as <-. simpl in Hd. by destruct (fut j0).
    + intros Hj Hd.
      pose proof (single_live_current _ _ _ Hs Hj Hd) as Hc.
      unfold stop_poll in Hsp. rewrite Hc, Hd in Hsp. discriminate.
  - unfold background. destruct (_async_tasks w !! k) as [j0|] eqn:Hk; [|exact Hs].
    destruct (advance r j0 (shared w)) as [j1 st1] eqn:Ha. simpl.
    intros i j Hj Hd. simpl in Hj |- *.
    destruct (decide (k = i)) as [->|Hne].
    + rewrite list_lookup_insert_eq in Hj by (by eapply lookup_lt_Some).
      injection Hj as <-. apply (Hs i j0 Hk).
      destruct (done (fut j0)) eqn:Hd0; [|reflexivity].
      pose proof (advance_done r j0 (shared w) Hd0) as Hd1.
      rewrite Ha in Hd1. simpl in Hd1. congruence.
    + rewrite list_lookup_insert_ne in Hj by done. by apply (Hs i j).
Qed.

Lemma single_live_exec acts w : single_live w → single_live (exec acts w).
Proof.
  intros Hs. induction acts as [|a acts IH] using rev_ind; [exact Hs|].
  rewrite exec_snoc. by apply single_live_step.
Qed.

(** C3. In every state the add-on can reach, a handle that is not done is
    the one the operator class holds, so at most one handle is live; and
    while that handle exists and is not done, [poll] fails, so the host
    does not run [invoke]: the submission is rejected and nothing
    changes. *)
Theorem C3_single_outstanding_handle key st acts e :
  let w := exec acts (initial key st) in
  (is_generating w = true → submit e w = (w, None))
  ∧ single_live w
  ∧ (∀ i i' j j',
       _async_tasks w !! i = Some j → _async_tasks w !! i' = Some j' →
       done (fut j) = false → done (fut j') = false → i = i').
Proof.
  cbv zeta.
  assert (Hs : single_live (exec acts (initial key st))).
  { apply single_live_exec. intros i j. simpl. by rewrite lookup_nil. }
  split_and!.
  - unfold is_generating, stop_poll, submit, poll.
    destruct (current_future _) as [f|]; [|discriminate].
    destruct (done f); [discriminate|]. intros _.
    destruct (genai_loaded _); simpl; [|reflexivity].
    by rewrite andb_false_r.
  - exact Hs.
  - intros i i' j j' Hj Hj' Hd Hd'.
    pose proof (Hs i j Hj Hd) as H1. pose proof (Hs i' j' Hj' Hd') as H2.
    congruence.
Qed.

Lemma C3_witness :
  is_generating w_streaming = true
  ∧ submit env_ok (set_input "more" w_streaming) = (set_input "more" w_streaming, None).
Proof.
  split; [vm_compute; reflexivity|].
  apply (C3_single_outstanding_handle "key" empty_store
           (SetInput " calm piano " :: Submit env_ok :: to_loop
              ++ [Background 0 (Yield it_audio); SetInput "more"]) env_ok).
  vm_compute. reflexivity.
Defined.

(** ** The last audio path while a generation is in flight *)

Lemma in_flight_step a w :
  (is_Some (_async_task_future w) → composer4u_last_audio_path w = "") →
  is_Some (_async_task_future (step a w)) →
  composer4u_last_audio_path (step a w) = "".
Proof.
  intros Hw. destruct a as [s|s|z|e| | | |k r]; simpl.
  - exact Hw.
  - exact Hw.
  - exact Hw.
  - destruct (submit_cases e w) as [-> | [_ Hi]]; [exact Hw|].
    apply invoke_accepted in Hi. by destruct Hi as (_ & -> & _).
  - destruct (request_stop_fields w) as (_ & -> & -> & _). exact Hw.
  - destruct (modal_fields w)
      as [_ [-> | (f & a & m & w1 & _ & _ & _ & -> & _)]]; [exact Hw|].
    by intros [? ?].
  - by intros [? ?].
  - destruct (background_fields k r w) as (_ & -> & -> & _). exact Hw.
Qed.

Lemma is_generating_handle w :
  is_generating w = true → is_Some (_async_task_future w).
Proof.
  unfold is_generating, stop_poll, current_future.
  destruct (_async_task_future w); [eauto | discriminate].
Qed.

(** C10. An accepted [invoke] empties the prompt field and the last audio
    path before it submits the task, and the generation is then in
    flight. In every state the add-on can reach, whatever happened before,
    the last audio path is empty while a generation is in flight. *)
Theorem C10_last_path_empty_in_flight key st acts :
  let w := exec acts (initial key st) in
  (∀ e w1, submit e w = (w1, Some RUNNING_MODAL) →
     composer4u_input w1 = ""
     ∧ composer4u_last_audio_path w1 = ""
     ∧ is_generating w1 = true)
  ∧ (is_generating w = true → composer4u_last_audio_path w = "").
Proof.
  cbv zeta. split.
  - intros e w1 Hsub.
    assert (Hinv : invoke e (exec acts (initial key st)) = (w1, RUNNING_MODAL)).
    { unfold submit in Hsub. destruct (poll _); [|discriminate].
      destruct (invoke e _) as [w1' s]. by injection Hsub as <- <-. }
    destruct (invoke_accepted _ _ _ Hinv) as (Hi & Hl & _ & Hslot & Hta & _).
    split_and!; auto.
    unfold is_generating, stop_poll, current_future. rewrite Hslot, Hta. simpl.
    rewrite lookup_app_r by done. by rewrite Nat.sub_diag.
  - intros Hg. apply is_generating_handle in Hg. revert Hg.
    induction acts as [|a acts IH] using rev_ind.
    + simpl. by intros [? ?].
    + rewrite exec_snoc. by apply in_flight_step.
Qed.

Lemma C10_witness :
  composer4u_last_audio_path (exec (removelast second_flight) (initial "key" empty_store))
  = "/tmp/tmpabc.wav"
  ∧ is_generating w_second = true
  ∧ composer4u_last_audio_path w_second = "".
Proof.
  split; [vm_compute; reflexivity|].
  split; [vm_compute; reflexivity|].
  apply (C10_last_path_empty_in_flight "key" empty_store second_flight).
  vm_compute. reflexivity.
Defined.


(** ** Streams of audio chunks *)

Lemma run_job_app evs1 evs2 : ∀ j st,
  run_job (evs1 ++ evs2) j st
  = let '(j1, st1) := run_job evs1 j st in run_job evs2 j1 st1.
Proof.
  induction evs1 as [|ev evs1 IH]; intros j st; simpl; [reflexivity|].
  destruct (job_step ev j st) as [j1 st1]. apply IH.
Qed.

Lemma clean_first_chunk it :
  clean it = true →
  ∃ chunk rest,
    server_content (msg it) = Some (chunk :: rest)
    ∧ first_chunk it = Some chunk
    ∧ write_error it = None ∧ play_error it = None.
Proof.
  unfold clean, first_chunk. intros H.
  repeat (apply andb_true_iff in H as [H ?]).
  repeat match goal with Hb : bool_decide _ = true |- _ =>
    apply bool_decide_eq_true in Hb end.
  destruct (server_content (msg it)) as [[|chunk rest]|];
    try (by match goal with Hs : is_Some None |- _ => destruct Hs end).
  eauto 10.
Qed.

Section Streaming.

Variables (key prompt folder : string) (e0 : task_env) (st0 : store).

Hypothesis device_ok : device_open_error e0 = None.
Hypothesis writer_ok : wave_open_error e0 = None.

Local Abbreviation p0 := (resolved key prompt folder e0 st0).

Lemma start_clean :
  ∃ c st, start (create key prompt folder e0) st0 = (c, st)
    ∧ at_pc c = AwaitConnect
    ∧ files st !! p0 = Some blank
    ∧ played c = [].
Proof.
  unfold start. fold p0.
  destruct (resolve_path (create key prompt folder e0) st0) as [p st1] eqn:Hr.
  assert (Hp : p = p0) by (unfold resolved; by rewrite Hr). subst p.
  cbn [env create]. rewrite device_ok.
  destruct (pyaudio_available e0); unfold open_writer; cbn [env with_stream
    with_pyaudio with_path create]; rewrite writer_ok;
    eexists _, _; (split; [reflexivity|]); simpl; split_and!; auto;
    unfold Wave.open, path_of; simpl; by rewrite lookup_insert_eq.
Qed.

Lemma connect_clean j st :
  run_job connect (fresh (create key prompt folder e0)) st0 = (j, st) →
  at_pc (coro j) = AwaitReceive
  ∧ fut j = Pending
  ∧ files st !! p0 = Some blank
  ∧ played (coro j) = [].
Proof.
  destruct start_clean as (c & st1 & Hs & Hpc & Hf & Hpl).
  unfold connect. cbn [run_job job_step]. unfold advance at 1.
  cbn [coro fresh create at_pc]. unfold _generate_music_async at 1.
  cbn [at_pc create]. rewrite Hs.
  unfold advance at 1. cbn [coro]. rewrite Hpc.
  unfold _generate_music_async at 1. rewrite Hpc. cbn [at_pc with_pc coro fut].
  unfold advance at 1. cbn [coro at_pc with_pc].
  unfold _generate_music_async at 1. cbn [at_pc with_pc coro fut].
  unfold advance at 1. cbn [coro at_pc with_pc].
  unfold _generate_music_async at 1. cbn [at_pc with_pc coro fut].
  intros [= <- <-]. simpl. auto.
Qed.

(** The job once it waits in the receive loop, after a run of clean
    iterations: what the writer has been handed and what the device has
    played. *)
Lemma stream_prefix its : ∀ j st,
  forallb clean its = true →
  run_job (connect ++ yields its) (fresh (create key prompt folder e0)) st0
  = (j, st) →
  at_pc (coro j) = AwaitReceive
  ∧ fut j = Pending
  ∧ (∃ f, files st !! p0 = Some f
        ∧ header f = (if chunks_of its is [] then None
                      else Some (length (concat (chunks_of its))))
        ∧ payload f = concat (chunks_of its))
  ∧ played (coro j) = (if pyaudio_available e0 then chunks_of its else []).
Proof.
  induction its as [|it its IH] using rev_ind; intros j st Hcl Hrun.
  - unfold yields in Hrun. simpl map in Hrun. rewrite app_nil_r in Hrun.
    destruct (connect_clean _ _ Hrun) as (H1 & H2 & H4 & H5).
    split_and!; auto; [by exists blank|]. simpl. by destruct (pyaudio_available e0).
  - rewrite forallb_app in Hcl. apply andb_true_iff in Hcl as [Hcl Hit].
    simpl in Hit. rewrite andb_true_r in Hit.
    unfold yields in Hrun. rewrite map_app, app_assoc, run_job_app in Hrun.
    fold (yields its) in Hrun.
    destruct (run_job (connect ++ yields its) _ st0) as [j1 st1] eqn:Hrun1.
    pose proof (reachable_inv _ _ _ _ _ _ _ _ Hrun1) as [(_ & _ & Hc) _].
    destruct (IH j1 st1 Hcl eq_refl) as (Hpc & Hfut & (f & Hf & Hhd & Hpay) & Hpl).
    rewrite Hpc in Hc. destruct Hc as [Hpath _ _ _ Hos _ _].
    destruct (clean_first_chunk it Hit) as (chunk & rest & Hsc & Hfc & Hwe & Hpe).
    simpl in Hrun. unfold advance in Hrun. rewrite Hpc in Hrun.
    unfold _generate_music_async in Hrun. rewrite Hpc in Hrun.
    unfold loop_body, current_task_cancelled in Hrun.
    rewrite Hpc, Hsc, Hwe, Hpe, Hos in Hrun.
    assert (Hch : chunks_of (its ++ [it]) = chunks_of its ++ [chunk]).
    { unfold chunks_of. rewrite omap_app. simpl. by rewrite Hfc. }
    rewrite Hch, concat_app. simpl. rewrite app_nil_r.
    assert (Hne : ∀ A (l : list A) (x : A) (a b : option nat),
              (if l ++ [x] is [] then a else b) = b)
      by (intros A [|? ?] ? ? ?; reflexivity).
    rewrite Hne.
    destruct (pyaudio_available e0); injection Hrun as <- <-; simpl;
      rewrite Hpc; split_and!; auto;
      try (by rewrite Hpl);
      (exists (append chunk (unflushed it) f); split;
       [unfold writeframes, path_of; rewrite Hpath; simpl;
        by rewrite lookup_alter_eq, Hf
       |simpl; by rewrite Hpay]).
Qed.

End Streaming.

Lemma clean_run key prompt folder e0 st0 its j st :
  device_open_error e0 = None →
  wave_open_error e0 = None →
  release_ok e0 →
  forallb clean its = true →
  run_job (connect ++ yields its ++ [Resume StopAsyncIteration])
    (fresh (create key prompt folder e0)) st0 = (j, st) →
  fut j = Finished Returned
  ∧ dict_get (container st) "audio_filepath"
    = PyStr (resolved key prompt folder e0 st0)
  ∧ dict_get (container st) "message" = PyStr "Music generated successfully."
  ∧ files st !! resolved key prompt folder e0 st0
    = Some {| header := Some (length (concat (chunks_of its)));
              payload := concat (chunks_of its);
              on_disk := HEADER_BYTES + length (concat (chunks_of its)) |}
  ∧ played (coro j) = (if pyaudio_available e0 then chunks_of its else [])
  ∧ released (coro j).
Proof.
  intros Hdev Hwav Hok Hcl Hrun.
  rewrite app_assoc, run_job_app in Hrun.
  destruct (run_job (connect ++ yields its) _ st0) as [j1 st1] eqn:Hrun1.
  pose proof (reachable_inv _ _ _ _ _ _ _ _ Hrun1) as [(He & Hwc & Hc) _].
  destruct (stream_prefix _ _ _ _ _ Hdev Hwav its j1 st1 Hcl Hrun1)
    as (Hpc & Hfut & (f & Hf & Hhd & Hpay) & Hpl).
  rewrite Hpc in Hc. destruct Hc as [Hpath Hcon _ Hw _ _ _].
  cbn [run_job job_step] in Hrun. unfold advance in Hrun. rewrite Hpc in Hrun.
  unfold _generate_music_async in Hrun. rewrite Hpc in Hrun.
  destruct (complete (leave_session (coro j1)) st1) as [c2 st2] eqn:Hcomp.
  injection Hrun as <- <-.
  destruct (leave_session_spec (coro j1))
    as (K1 & _ & K3 & K4 & K5 & _ & _ & K8 & K9).
  apply complete_spec in Hcomp.
  destruct Hcomp as (_ & _ & _ & Hpl' & _ & _ & (x & Hpc' & _ & Hx) & Hrel & _ & Hco & Hfi).
  rewrite K4, He in Hx, Hrel. rewrite (Hx Hok) in Hpc'.
  rewrite K8, Hwc in Hco. unfold writer_closes in Hfi.
  rewrite K5, Hw, K4, He in Hfi.
  apply release_ok_spec in Hok as Hok'. destruct Hok' as (Hce & _).
  rewrite Hce in Hfi. simpl in Hfi.
  unfold path_of in Hfi. rewrite K3, Hpath in Hfi. simpl in Hfi.
  cbn [fut coro]. rewrite Hpc', Hfut. split_and!.
  - reflexivity.
  - unfold dict_get. rewrite Hco, lookup_insert_ne by done. by rewrite Hcon.
  - unfold dict_get. by rewrite Hco, lookup_insert_eq.
  - rewrite Hfi. unfold Wave.close. rewrite lookup_alter_eq, Hf. simpl.
    unfold finalize. by rewrite Hpay.
  - by rewrite Hpl', K9.
  - by apply Hrel.
Qed.

(** X1. A generation on which nothing goes wrong, run to the end of the
    stream: the handle finishes with a result, the result container holds
    the resolved path and the success message, the file holds exactly the
    first chunk of every message, in the order received, under a header
    that records their total length, all of it at the path, the device
    has played the same chunks when PyAudio is available and nothing
    otherwise, and everything the task opened is closed. *)
Theorem X1_clean_run_writes_every_chunk key prompt folder e0 st0 its j st :
  device_open_error e0 = None →
  wave_open_error e0 = None →
  release_ok e0 →
  forallb clean its = true →
  run_job (connect ++ yields its ++ [Resume StopAsyncIteration])
    (fresh (create key prompt folder e0)) st0 = (j, st) →
  fut j = Finished Returned
  ∧ dict_get (container st) "audio_filepath"
    = PyStr (resolved key prompt folder e0 st0)
  ∧ dict_get (container st) "message" = PyStr "Music generated successfully."
  ∧ files st !! resolved key prompt folder e0 st0
    = Some {| header := Some (length (concat (chunks_of its)));
              payload := concat (chunks_of its);
              on_disk := HEADER_BYTES + length (concat (chunks_of its)) |}
  ∧ played (coro j) = (if pyaudio_available e0 then chunks_of its else [])
  ∧ released (coro j).
Proof. apply clean_run. Qed.

Lemma X1_witness :
  files (snd (run_job (connect ++ yields [it_audio; it_buffered]
                         ++ [Resume StopAsyncIteration])
                (job0 env_ok) empty_store))
    !! resolved "key" "calm piano" "" env_ok empty_store
  = Some {| header := Some (length (concat (chunks_of [it_audio; it_buffered])));
            payload := concat (chunks_of [it_audio; it_buffered]);
            on_disk := HEADER_BYTES
                       + length (concat (chunks_of [it_audio; it_buffered])) |}.
Proof.
  assert (Hrun : ∀ r : job * store, r = (fst r, snd r)) by (by intros []).
  exact (proj1 (proj2 (proj2 (proj2
    (X1_clean_run_writes_every_chunk
       "key" "calm piano" "" env_ok empty_store [it_audio; it_buffered] _ _
       eq_refl eq_refl eq_refl eq_refl (Hrun _)))))).
Defined.

Lemma stop_after_chunks key prompt folder e0 st0 its j st :
  device_open_error e0 = None →
  wave_open_error e0 = None →
  release_ok e0 →
  forallb clean its = true →
  run_job (connect ++ yields its
             ++ [CancelHandle; Resume (Throw AsyncioCancelledError)])
    (fresh (create key prompt folder e0)) st0 = (j, st) →
  fut j = Cancelled
  ∧ dict_get (container st) "audio_filepath"
    = PyStr (resolved key prompt folder e0 st0)
  ∧ files st !! resolved key prompt folder e0 st0
    = Some {| header := Some (length (concat (chunks_of its)));
              payload := concat (chunks_of its);
              on_disk := HEADER_BYTES + length (concat (chunks_of its)) |}
  ∧ Timeline.read_nframes (resolved key prompt folder e0 st0) st
    = Some (length (concat (chunks_of its)) / frame_bytes)
  ∧ played (coro j) = (if pyaudio_available e0 then chunks_of its else [])
  ∧ released (coro j).
Proof.
  intros Hdev Hwav Hok Hcl Hrun.
  rewrite app_assoc, run_job_app in Hrun.
  destruct (run_job (connect ++ yields its) _ st0) as [j1 st1] eqn:Hrun1.
  pose proof (reachable_inv _ _ _ _ _ _ _ _ Hrun1) as [Hinv _].
  destruct (stream_prefix _ _ _ _ _ Hdev Hwav its j1 st1 Hcl Hrun1)
    as (Hpc & Hfut & (f & Hf & Hhd & Hpay) & Hpl).
  cbn [run_job job_step] in Hrun. unfold advance in Hrun.
  cbn [coro cancel_job] in Hrun. rewrite Hpc in Hrun.
  destruct (_generate_music_async _ (coro j1) st1) as [c2 st2] eqn:Hs.
  injection Hrun as <- <-.
  pose proof (co_step_inv _ _ _ _ _ _ _ _ _ _ Hinv Hs) as (_ & _ & Hinv2).
  destruct (cancel_midstream _ _ _ _ _ _ _ (Throw AsyncioCancelledError)
              _ _ Hinv Hpc eq_refl Hs)
    as (Hco & Hfi & Hpl' & _ & x & Hx & _ & Hxx).
  destruct Hinv as (_ & _ & Hi). rewrite Hpc in Hi.
  destruct Hi as [_ Hcon _ _ _ _ _].
  apply release_ok_spec in Hok as Hok'. destruct Hok' as (Hce & _).
  rewrite Hce in Hfi.
  assert (Hfile : files st2 !! resolved key prompt folder e0 st0
                  = Some {| header := Some (length (concat (chunks_of its)));
                            payload := concat (chunks_of its);
                            on_disk := HEADER_BYTES
                                       + length (concat (chunks_of its)) |}).
  { rewrite Hfi. unfold Wave.close. rewrite lookup_alter_eq, Hf. simpl.
    unfold finalize. by rewrite Hpay. }
  cbn [fut coro]. rewrite Hx in Hinv2 |- *. rewrite Hfut. split_and!.
  - by destruct x as [|[| |?]].
  - unfold dict_get. by rewrite Hco, Hcon.
  - exact Hfile.
  - unfold Timeline.read_nframes. rewrite Hfile. simpl. unfold nframes. simpl.
    destruct (Nat.ltb_spec (HEADER_BYTES + length (concat (chunks_of its)))
                HEADER_BYTES); [lia | reflexivity].
  - by rewrite Hpl'.
  - destruct Hinv2 as (_ & Hrel & _). by apply Hrel.
Qed.

(** X2. A generation stopped after a run of clean iterations: the handle
    is cancelled, the path stays in the result container, and the file is
    a finalised WAV file that holds exactly the chunks received before the
    stop; a reader finds in it the frames of those chunks. *)
Theorem X2_stop_after_chunks_keeps_them key prompt folder e0 st0 its j st :
  device_open_error e0 = None →
  wave_open_error e0 = None →
  release_ok e0 →
  forallb clean its = true →
  run_job (connect ++ yields its
             ++ [CancelHandle; Resume (Throw AsyncioCancelledError)])
    (fresh (create key prompt folder e0)) st0 = (j, st) →
  fut j = Cancelled
  ∧ dict_get (container st) "audio_filepath"
    = PyStr (resolved key prompt folder e0 st0)
  ∧ files st !! resolved key prompt folder e0 st0
    = Some {| header := Some (length (concat (chunks_of its)));
              payload := concat (chunks_of its);
              on_disk := HEADER_BYTES + length (concat (chunks_of its)) |}
  ∧ Timeline.read_nframes (resolved key prompt folder e0 st0) st
    = Some (length (concat (chunks_of its)) / frame_bytes)
  ∧ played (coro j) = (if pyaudio_available e0 then chunks_of its else [])
  ∧ released (coro j).
Proof. apply stop_after_chunks. Qed.

Lemma X2_witness :
  Timeline.read_nframes (resolved "key" "calm piano" "" env_ok empty_store)
    (snd (run_job (connect ++ yields [it_audio; it_buffered]
                     ++ [CancelHandle; Resume (Throw AsyncioCancelledError)])
            (job0 env_ok) empty_store))
  = Some (length (concat (chunks_of [it_audio; it_buffered])) / frame_bytes).
Proof.
  assert (Hrun : ∀ r : job * store, r = (fst r, snd r)) by (by intros []).
  exact (proj1 (proj2 (proj2 (proj2
    (X2_stop_after_chunks_keeps_them
       "key" "calm piano" "" env_ok empty_store [it_audio; it_buffered] _ _
       eq_refl eq_refl eq_refl eq_refl (Hrun _)))))).
Defined.

(** ** The file name *)

Lemma all_chars_rev_app p s1 : ∀ s2,
  all_chars p (String.rev_app s1 s2) = all_chars p s1 && all_chars p s2.
Proof.
  induction s1 as [|a s1 IH]; intros s2; simpl; [reflexivity|].
  rewrite IH. simpl. by destruct (p a), (all_chars p s1).
Qed.

Lemma length_rev_app s1 : ∀ s2,
  String.length (String.rev_app s1 s2) = String.length s1 + String.length s2.
Proof.
  induction s1 as [|a s1 IH]; intros s2; simpl; [reflexivity|].
  rewrite IH. simpl. lia.
Qed.

Lemma last_char_cons a s :
  last_char (String a s) = Some (default a (last_char s)).
Proof.
  revert a. induction s as [|b s IH]; intros a; [reflexivity|].
  change (last_char (String a (String b s))) with (last_char (String b s)).
  rewrite IH. simpl. by destruct (last_char s).
Qed.

Lemma first_char_rev_app s1 : ∀ s2,
  first_char (String.rev_app s1 s2)
  = match last_char s1 with Some c => Some c | None => first_char s2 end.
Proof.
  induction s1 as [|a s1 IH]; intros s2; [reflexivity|].
  simpl String.rev_app. rewrite IH, last_char_cons. simpl.
  by destruct (last_char s1).
Qed.

Lemma last_char_rev_app s1 : ∀ s2,
  last_char (String.rev_app s1 s2)
  = match last_char s2 with Some c => Some c | None => first_char s1 end.
Proof.
  induction s1 as [|a s1 IH]; intros s2.
  - simpl. by destruct (last_char s2).
  - simpl String.rev_app. rewrite IH, last_char_cons. simpl.
    by destruct (last_char s2).
Qed.

Lemma lstrip_first p s c : first_char (lstrip p s) = Some c → p c = false.
Proof.
  induction s as [|a s IH]; simpl; [discriminate|].
  destruct (p a) eqn:Hp; [exact IH|]. simpl. by intros [= <-].
Qed.

Lemma lstrip_last p s c : last_char (lstrip p s) = Some c → last_char s = Some c.
Proof.
  induction s as [|a s IH]; [done|]. simpl lstrip.
  destruct (p a); [|done].
  intros H. rewrite last_char_cons, (IH H). reflexivity.
Qed.

Lemma lstrip_all p q s : all_chars q s = true → all_chars q (lstrip p s) = true.
Proof.
  induction s as [|a s IH]; simpl; [done|].
  intros H. apply andb_true_iff in H as [Ha Hs].
  destruct (p a); [by apply IH|]. simpl. by rewrite Ha, Hs.
Qed.

Lemma lstrip_length p s : (String.length (lstrip p s) ≤ String.length s)%nat.
Proof.
  induction s as [|a s IH]; simpl; [lia|].
  destruct (p a); simpl; lia.
Qed.

Lemma strip_with_ends p s c :
  first_char (strip_with p s) = Some c ∨ last_char (strip_with p s) = Some c →
  p c = false.
Proof.
  unfold strip_with, String.rev.
  rewrite first_char_rev_app, last_char_rev_app. simpl.
  intros [H | H].
  - destruct (last_char (lstrip p _)) as [d|] eqn:Hl; [|discriminate].
    injection H as ->. apply lstrip_last in Hl.
    rewrite last_char_rev_app in Hl. simpl in Hl.
    by apply lstrip_first in Hl.
  - by apply lstrip_first in H.
Qed.

Lemma strip_with_all p q s :
  all_chars q s = true → all_chars q (strip_with p s) = true.
Proof.
  intros H. unfold strip_with, String.rev.
  rewrite all_chars_rev_app. simpl. rewrite andb_true_r.
  apply lstrip_all. rewrite all_chars_rev_app. simpl. rewrite andb_true_r.
  by apply lstrip_all.
Qed.

Lemma strip_with_length p s :
  (String.length (strip_with p s) ≤ String.length s)%nat.
Proof.
  unfold strip_with, String.rev. rewrite length_rev_app. simpl.
  pose proof (lstrip_length p (String.rev_app (lstrip p s) "")) as H1.
  rewrite length_rev_app in H1. simpl in H1.
  pose proof (lstrip_length p s). lia.
Qed.

Lemma str_take_length n : ∀ s, (String.length (str_take n s) ≤ n)%nat.
Proof.
  induction n as [|n IH]; intros [|a s]; simpl; try lia.
  specialize (IH s). lia.
Qed.

Lemma map_chars_length f s : String.length (map_chars f s) = String.length s.
Proof. induction s as [|a s IH]; simpl; congruence. Qed.

Lemma map_chars_all f q s :
  (∀ c, q (f c) = true) → all_chars q (map_chars f s) = true.
Proof.
  intros H. induction s as [|a s IH]; simpl; [done|]. by rewrite H, IH.
Qed.

Lemma sanitized_prompt_chars prompt :
  all_chars (λ c, isalnum c || Ascii.eqb c "_") (sanitized_prompt prompt) = true.
Proof.
  unfold sanitized_prompt, or_else.
  set (t := strip_with _ (map_chars _ _)).
  destruct (truthy t); [|reflexivity].
  apply strip_with_all, map_chars_all. intros c.
  destruct (isalnum c) eqn:Hc; [by rewrite Hc|reflexivity].
Qed.

(** The accented letter of a prompt stays in the name, and 30 characters
    are kept however they would be encoded. *)
Example sanitized_prompt_latin1 :
  let e_acute := ascii_of_nat 233 in
  sanitized_prompt ("caf" +:+ String e_acute " au lait!")
  = "caf" +:+ String e_acute "_au_lait"
  ∧ String.length
      (sanitized_prompt (String.concat "" (replicate 40 (String e_acute ""))))
    = 30.
Proof. split; vm_compute; reflexivity. Qed.

(** X3. For every prompt (of characters below U+0100, as everywhere in
    this model), the part of the file name made from it is not empty, is
    at most 30 characters long, consists only of characters that
    [isalnum] accepts (letters and digits, accented letters included) and
    underscores, and neither begins nor ends with an underscore. *)
Theorem X3_sanitized_prompt_shape prompt :
  let s := sanitized_prompt prompt in
  truthy s = true
  ∧ (String.length s ≤ 30)%nat
  ∧ all_chars (λ c, isalnum c || Ascii.eqb c "_") s = true
  ∧ first_char s ≠ Some "_"%char
  ∧ last_char s ≠ Some "_"%char.
Proof.
  cbv zeta. unfold sanitized_prompt, or_else.
  set (t := strip_with _ (map_chars _ _)).
  destruct (truthy t) eqn:Ht; [|by split_and!; try done; simpl; lia].
  split_and!.
  - exact Ht.
  - unfold t. etrans; [apply strip_with_length|].
    rewrite map_chars_length. apply str_take_length.
  - pose proof (sanitized_prompt_chars prompt) as Hs.
    unfold sanitized_prompt, or_else in Hs. fold t in Hs. by rewrite Ht in Hs.
  - intros H. by pose proof (strip_with_ends _ _ _ (or_introl H)).
  - intros H. by pose proof (strip_with_ends _ _ _ (or_intror H)).
Qed.

Lemma all_chars_app q s1 s2 :
  all_chars q (s1 +:+ s2) = all_chars q s1 && all_chars q s2.
Proof.
  induction s1 as [|a s1 IH]; simpl; [reflexivity|].
  rewrite IH. by rewrite andb_assoc.
Qed.

Lemma all_chars_impl (q r : ascii → bool) s :
  (∀ c, q c = true → r c = true) → all_chars q s = true → all_chars r s = true.
Proof.
  intros H. induction s as [|a s IH]; simpl; [done|].
  intros Ha. apply andb_true_iff in Ha as [Ha Hs]. by rewrite (H a Ha), IH.
Qed.

Lemma no_slash_not_contained s :
  all_chars (λ c, negb (Ascii.eqb c "/")) s = true → contains "/" s = false.
Proof.
  induction s as [|a s IH]; [done|]. cbn [all_chars contains].
  intros H. apply andb_true_iff in H as [Ha Hs]. rewrite (IH Hs), orb_false_r.
  destruct (String.prefix "/" (String a s)) eqn:E; [|reflexivity].
  apply String.prefix_correct in E. cbn in E. injection E as ->. discriminate.
Qed.

Lemma prefix_append s t : String.prefix s (s +:+ t) = true.
Proof.
  induction s as [|a s IH]; [by destruct t|].
  change (String.prefix (String a s) (String a s +:+ t))
    with (if ascii_dec a a then String.prefix s (s +:+ t) else false).
  destruct (ascii_dec a a); [exact IH | done].
Qed.

(** X4. When the clock string holds only letters, digits and underscores
    (as [strftime("%Y%m%d_%H%M%S")] gives), so does the file name, apart
    from the dot of its extension: no text of the prompt (of characters
    below U+0100) can put a path separator in the name, and the artifact
    is created in the output folder itself. *)
Theorem X4_filename_has_no_separator timestamp prompt :
  all_chars (λ c, isalnum c || Ascii.eqb c "_") timestamp = true →
  all_chars (λ c, isalnum c || Ascii.eqb c "_" || Ascii.eqb c ".")
    (filename timestamp prompt) = true
  ∧ contains "/" (filename timestamp prompt) = false
  ∧ String.prefix "composition_" (filename timestamp prompt) = true.
Proof.
  intros Hts.
  pose proof (sanitized_prompt_chars prompt) as Hs.
  assert (Hall : all_chars (λ c, isalnum c || Ascii.eqb c "_" || Ascii.eqb c ".")
                   (filename timestamp prompt) = true).
  { unfold filename. rewrite !all_chars_app.
    rewrite (all_chars_impl _ _ _ (λ c H, orb_true_intro _ _ (or_introl H)) Hts).
    rewrite (all_chars_impl _ _ _ (λ c H, orb_true_intro _ _ (or_introl H)) Hs).
    reflexivity. }
  split_and!.
  - exact Hall.
  - apply no_slash_not_contained. revert Hall. apply all_chars_impl.
    intros c Hc. destruct (Ascii.eqb_spec c "/") as [->|]; [discriminate|done].
  - unfold filename. apply prefix_append.
Qed.

Lemma X4_witness :
  contains "/" (filename "20250101_120000" "../../etc/passwd") = false.
Proof.
  exact (proj1 (proj2 (X4_filename_has_no_separator
                         "20250101_120000" "../../etc/passwd" eq_refl))).
Defined.

(** ** Validation in [invoke] *)

Lemma lstrip_all_chars p s : all_chars p s = all_chars p (lstrip p s).
Proof.
  induction s as [|a s IH]; simpl; [reflexivity|].
  destruct (p a) eqn:Hp; simpl; [exact IH | by rewrite Hp].
Qed.

Lemma lstrip_empty p s : lstrip p s = "" ↔ all_chars p s = true.
Proof.
  induction s as [|a s IH]; simpl; [done|].
  destruct (p a); simpl; [exact IH | done].
Qed.

Lemma rev_app_empty s1 s2 : String.rev_app s1 s2 = "" ↔ s1 = "" ∧ s2 = "".
Proof.
  split; [|by intros [-> ->]].
  intros H. apply (f_equal String.length) in H.
  rewrite length_rev_app in H. simpl in H.
  destruct s1, s2; simpl in H; try lia. done.
Qed.

(** [s.strip()] is empty exactly when [s] holds nothing but whitespace. *)
Lemma strip_truthy s : truthy (strip s) = negb (all_chars isspace s).
Proof.
  unfold strip, strip_with, String.rev.
  destruct (all_chars isspace s) eqn:Hs; simpl.
  - apply lstrip_empty in Hs. by rewrite Hs.
  - destruct (String.rev_app _ "") as [|a r] eqn:Hr; [|reflexivity].
    exfalso. apply rev_app_empty in Hr as [Hr _].
    apply lstrip_empty in Hr. rewrite all_chars_rev_app in Hr.
    simpl in Hr. rewrite andb_true_r, <- lstrip_all_chars in Hr. congruence.
Qed.

(** A prompt made of a NO-BREAK SPACE only is empty once stripped. *)
Example strip_no_break_space : strip (String (ascii_of_nat 160) " ") = "".
Proof. vm_compute. reflexivity. Qed.

(** X5. [invoke] accepts a submission exactly when an API key is set, the
    prompt holds a character that [isspace] rejects (white space is what
    Python counts as such below U+0100, NO-BREAK SPACE included), and the
    output folder, once stripped, is empty or an existing directory. In
    every other case it returns [CANCELLED] and changes nothing: no
    history entry, no task, the prompt field kept. *)
Theorem X5_invoke_validation e w :
  let folder := strip (composer4u_output_folder w) in
  if truthy (prefs_api_key w)
     && negb (all_chars isspace (composer4u_input w))
     && (negb (truthy folder) || isdir folder (shared w))
  then snd (invoke e w) = RUNNING_MODAL
       ∧ length (_async_tasks (fst (invoke e w))) = S (length (_async_tasks w))
  else invoke e w = (w, CANCELLED).
Proof.
  cbv zeta. unfold invoke. rewrite (strip_truthy (composer4u_input w)).
  destruct (truthy (prefs_api_key w)); simpl; [|reflexivity].
  destruct (all_chars isspace (composer4u_input w)); simpl; [reflexivity|].
  destruct (truthy (strip (composer4u_output_folder w))); simpl.
  - destruct (isdir _ (shared w)); simpl; [|reflexivity].
    split; [reflexivity|]. rewrite length_app. simpl. lia.
  - split; [reflexivity|]. rewrite length_app. simpl. lia.
Qed.

(** X6. The two buttons are never enabled together: while the stop
    operator can run, the send operator cannot; and with the library
    loaded and a key set, exactly one of them can. *)
Theorem X6_generate_and_stop_exclusive w :
  poll w && stop_poll w = false
  ∧ (genai_loaded w = true → truthy (prefs_api_key w) = true →
     poll w = negb (stop_poll w)).
Proof.
  unfold poll, stop_poll. split.
  - destruct (genai_loaded w); simpl; [|reflexivity].
    destruct (current_future w) as [f|]; [|by rewrite andb_false_r].
    destruct (done f); simpl; [by rewrite andb_false_r|].
    by rewrite andb_false_r.
  - intros -> ->. simpl. by destruct (current_future w) as [f|]; [destruct (done f)|].
Qed.

Lemma X6_witness : poll w_streaming = negb (stop_poll w_streaming).
Proof.
  exact (proj2 (X6_generate_and_stop_exclusive w_streaming) eq_refl eq_refl).
Defined.


(** ** More on the operators *)

Lemma advance_cancelled r j st :
  fut j = Cancelled → fut (fst (advance r j st)) = Cancelled.
Proof.
  intros Hf. unfold advance.
  destruct (at_pc (coro j)); try exact Hf;
    destruct (_generate_music_async r (coro j) st) as [c1 st1]; simpl;
    destruct (at_pc c1); try exact Hf;
    rewrite Hf; by destruct x as [|[| |?]].
Qed.

(** X8. Once a stop request has been accepted, the outcome is settled:
    whatever the background task does afterwards (more chunks, a clean
    end, a failure), and however often stop is pressed again, the handle
    stays cancelled, and the next tick appends the entry
    ["Composer4U: Generation stopped by user."] and clears the handle. *)
Theorem X8_stop_request_is_final w acts :
  stop_poll w = true →
  forallb passive acts = true →
  let w1 := exec acts (fst (request_stop w)) in
  current_future w1 = Some Cancelled
  ∧ composer4u_history (step Tick w1)
    = composer4u_history w ++ ["Composer4U: Generation stopped by user."]
  ∧ _async_task_future (step Tick w1) = None.
Proof.
  intros Hsp Hacts. cbv zeta.
  assert (Hinv : current_future (exec acts (fst (request_stop w))) = Some Cancelled
                 ∧ composer4u_history (exec acts (fst (request_stop w)))
                   = composer4u_history w).
  { induction acts as [|a acts IH] using rev_ind.
    - simpl. unfold request_stop. rewrite Hsp.
      unfold stop_poll in Hsp.
      destruct (current_future w) as [f|] eqn:Hf; [|discriminate].
      apply current_future_lookup in Hf as (i & j & Hslot & Hj & <-).
      unfold stop_execute. rewrite Hslot. simpl.
      unfold cancel_current. rewrite Hslot. split; [|reflexivity].
      unfold current_future. simpl. rewrite Hslot. simpl.
      rewrite list_lookup_alter_eq, Hj. simpl.
      by destruct (fut j).
    - rewrite forallb_app in Hacts. apply andb_true_iff in Hacts as [H1 H2].
      simpl in H2. rewrite andb_true_r in H2.
      destruct (IH H1) as [Hc Hh]. rewrite exec_snoc.
      remember (exec acts (fst (request_stop w))) as w0 eqn:Ew0. clear Ew0 IH.
      pose proof Hc as Hcur.
      apply current_future_lookup in Hc as (i & j & Hslot & Hj & Hfut).
      destruct a as [s|s|z|e| | | |k r]; try discriminate; simpl.
      + by split.
      + by split.
      + by split.
      + unfold request_stop, stop_execute.
        destruct (stop_poll w0); [|by split].
        rewrite Hslot. simpl. unfold cancel_current. rewrite Hslot.
        split; [|exact Hh]. unfold current_future. simpl. rewrite Hslot. simpl.
        rewrite list_lookup_alter_eq, Hj. simpl. by rewrite Hfut.
      + unfold background. destruct (_async_tasks w0 !! k) as [j0|] eqn:Hk;
          [|by split].
        destruct (advance r j0 (shared w0)) as [j1 st1] eqn:Ha.
        split; [|exact Hh]. unfold current_future. simpl. rewrite Hslot. simpl.
        destruct (decide (k = i)) as [->|Hne].
        * rewrite list_lookup_insert_eq by (by eapply lookup_lt_Some).
          simpl. f_equal. assert (j0 = j) as -> by congruence.
          pose proof (advance_cancelled r j (shared w0) Hfut) as Hc.
          by rewrite Ha in Hc.
        * rewrite list_lookup_insert_ne by done. rewrite Hj. simpl. by rewrite Hfut. }
  destruct Hinv as [Hc Hh]. split; [exact Hc|].
  simpl. unfold modal. rewrite Hc. simpl.
  destruct (has_audio _ _); simpl; unfold modal_update_path; simpl;
    repeat (destruct (has_audio _ _); simpl); rewrite ?Hh; auto.
Qed.

Lemma X8_witness :
  composer4u_history
    (step Tick (exec [Background 0 (Yield it_audio); Stop;
                      Background 0 StopAsyncIteration]
                  (fst (request_stop w_streaming))))
  = composer4u_history w_streaming ++ ["Composer4U: Generation stopped by user."].
Proof.
  exact (proj1 (proj2 (X8_stop_request_is_final w_streaming
                         [Background 0 (Yield it_audio); Stop;
                          Background 0 StopAsyncIteration] eq_refl eq_refl))).
Defined.

(** X10. [modal] never records a path it has not checked: starting from
    an empty last audio path (as [invoke] leaves it), if the path is not
    empty after the tick then it is the path found in the result
    container, it names an existing file, and that file is not zero bytes
    long. *)
Theorem X10_recorded_path_names_a_file w :
  composer4u_last_audio_path w = "" →
  let w' := fst (modal w) in
  composer4u_last_audio_path w' ≠ "" →
  dict_get (container (shared w)) "audio_filepath"
  = PyStr (composer4u_last_audio_path w')
  ∧ path_exists (composer4u_last_audio_path w') (shared w) = true
  ∧ (0 < path_getsize (composer4u_last_audio_path w') (shared w))%nat.
Proof.
  intros Hl. cbv zeta. unfold modal.
  destruct (current_future w) as [f|]; [|simpl; by rewrite Hl].
  destruct (done f); [|simpl; by rewrite Hl].
  assert (Hrec : ∀ a m w1,
            shared w1 = shared w →
            (composer4u_last_audio_path w1 = ""
             ∨ has_audio a (shared w) = true) →
            a = dict_get (container (shared w)) "audio_filepath" ∨ a = PyNone →
            composer4u_last_audio_path (modal_finish m (modal_update_path a m w1)) ≠ "" →
            dict_get (container (shared w)) "audio_filepath"
            = PyStr (composer4u_last_audio_path
                       (modal_finish m (modal_update_path a m w1)))
            ∧ path_exists (composer4u_last_audio_path
                             (modal_finish m (modal_update_path a m w1)))
                (shared w) = true
            ∧ (0 < path_getsize (composer4u_last_audio_path
                                   (modal_finish m (modal_update_path a m w1)))
                     (shared w))%nat).
  { intros a m w1 Hsh Hw1 Ha. unfold modal_update_path. rewrite Hsh. simpl.
    destruct (has_audio a (shared w)) eqn:Hau; simpl.
    - intros _. destruct a as [|p]; [discriminate|]. simpl in Hau |- *.
      apply andb_true_iff in Hau as [Hau Hsz].
      apply andb_true_iff in Hau as [_ Hex].
      apply Nat.ltb_lt in Hsz.
      destruct Ha as [Ha | Ha]; [|discriminate]. by rewrite <- Ha.
    - destruct Hw1 as [Hw1 | ?]; [|discriminate].
      destruct (contains "Error" m || contains "No audio file" m); simpl;
        rewrite ?Hw1; done. }
  unfold modal_try. destruct (result f) as [|e0].
  - cbv beta iota. unfold fst. cbv beta iota. apply Hrec; auto.
  - destruct (is_Exception e0); [|simpl; by rewrite Hl].
    destruct (is_CancelledError e0).
    + destruct (has_audio _ (shared w)) eqn:Hau;
        cbv beta iota; unfold fst; cbv beta iota; apply Hrec; auto.
    + cbv beta iota. unfold fst. cbv beta iota. apply Hrec; auto.
Qed.

Lemma X10_witness :
  path_exists (composer4u_last_audio_path (fst (modal w_finished)))
    (shared w_finished) = true.
Proof.
  assert (H1 : composer4u_last_audio_path w_finished = "")
    by (vm_compute; reflexivity).
  assert (H2 : composer4u_last_audio_path (fst (modal w_finished)) ≠ "")
    by (vm_compute; discriminate).
  exact (proj1 (proj2 (X10_recorded_path_names_a_file w_finished H1 H2))).
Defined.

(** X11. When the host cancels the running operator, in any state the
    add-on can reach: the live handle, if there is one, is cancelled and
    the class forgets it, so that no handle is left live; nothing is
    appended to the history, and the last audio path, the files and the
    timeline are left as they are. *)
Theorem X11_host_cancel_leaves_no_live_handle key st acts :
  let w := exec acts (initial key st) in
  let w' := cancel w in
  _async_task_future w' = None
  ∧ (∀ i j, _async_tasks w' !! i = Some j → done (fut j) = true)
  ∧ composer4u_history w' = composer4u_history w
  ∧ composer4u_last_audio_path w' = composer4u_last_audio_path w
  ∧ shared w' = shared w
  ∧ timeline_calls w' = timeline_calls w.
Proof.
  cbv zeta.
  assert (Hs : single_live (exec acts (initial key st))).
  { apply single_live_exec. intros i j. simpl. by rewrite lookup_nil. }
  pose proof (single_live_step HostCancel _ Hs) as Hs'. simpl in Hs'.
  remember (exec acts (initial key st)) as w eqn:Ew. clear Ew.
  split_and!.
  - reflexivity.
  - intros i j Hj. destruct (done (fut j)) eqn:Hd; [reflexivity|].
    pose proof (Hs' i j Hj Hd) as Hc. discriminate.
  - unfold cancel. destruct (stop_poll w); [|reflexivity].
    simpl. by rewrite (proj1 (cancel_current_fields w)).
  - unfold cancel. destruct (stop_poll w); [|reflexivity].
    simpl. by destruct (cancel_current_fields w) as (_ & -> & _).
  - unfold cancel, cancel_current. destruct (stop_poll w); [|reflexivity].
    by destruct (_async_task_future w).
  - unfold cancel, cancel_current. destruct (stop_poll w); [|reflexivity].
    by destruct (_async_task_future w).
Qed.

(** X12. A message whose [server_content] carries no audio chunk makes
    [audio_chunks[0]] raise: the task ends with that error like a
    failure (or, if a call of the cleanup raises in turn, with the error
    of that call), a pending handle finishes with it, the path in the
    result container is cleared, nothing is pushed to the device, and the
    file with everything written so far is removed unless [os.remove]
    raises. *)
Theorem X12_message_without_chunk_fails_task j st it j' st' :
  at_pc (coro j) = AwaitReceive →
  server_content (msg it) = Some [] →
  job_step (Resume (Yield it)) j st = (j', st') →
  (∃ t, at_pc (coro j') = Done (Raised (PyException t))
      ∧ (t = "list index out of range" ∨ t ∈ release_errors (env (coro j)))
      ∧ (release_ok (env (coro j)) → t = "list index out of range")
      ∧ (fut j = Pending → fut j' = Finished (Raised (PyException t))))
  ∧ dict_get (container st') "audio_filepath" = PyNone
  ∧ played (coro j') = played (coro j)
  ∧ (∀ p, audio_filepath (coro j) = Some p → truthy p = true →
          remove_error (env (coro j)) = None → files st' !! p = None).
Proof.
  intros Hpc Hsc Hstep.
  simpl in Hstep. unfold advance in Hstep. rewrite Hpc in Hstep.
  destruct (_generate_music_async (Yield it) (coro j) st) as [c1 st1] eqn:Hs.
  injection Hstep as <- <-. simpl.
  unfold _generate_music_async in Hs. rewrite Hpc in Hs.
  unfold loop_body, current_task_cancelled in Hs. rewrite Hpc, Hsc in Hs.
  destruct (leave_session_spec (coro j))
    as (K1 & K2 & K3 & K4 & K5 & K6 & K7 & K8 & K9).
  apply fail_spec in Hs.
  destruct Hs as (He & Hp & _ & Hpl & _ & _ & (x & Hpc' & Hx & Hxok) & _ & _ & _ & Hcl).
  destruct (Hcl eq_refl) as [[Hco Hrm] _].
  rewrite K4 in Hx, Hxok. rewrite Hpc'.
  assert (Ht : ∃ t, x = Raised (PyException t)
                    ∧ (t = "list index out of range"
                       ∨ t ∈ release_errors (env (coro j)))
                    ∧ (release_ok (env (coro j)) → t = "list index out of range")).
  { destruct Hx as [-> | (t & -> & Ht)].
    - eexists. split; [reflexivity|]. auto.
    - exists t. split; [done|]. split; [auto|]. intros Hok.
      by injection (Hxok Hok) as ->. }
  destruct Ht as (t & -> & Ht1 & Ht2).
  split_and!; auto.
  - exists t. split_and!; auto. intros ->. reflexivity.
  - congruence.
  - intros p Hpp Ht Hr. apply Hrm; congruence.
Qed.

Lemma X12_witness :
  let it := {| msg := {| server_content := Some []; filtered_prompt := None |};
               write_error := None; unflushed := 0; play_error := None |} in
  files (snd (job_step (Resume (Yield it)) (fst streaming1) (snd streaming1)))
    !! "/tmp/tmpabc.wav" = None.
Proof.
  intros it.
  assert (Hrun : ∀ r : job * store, r = (fst r, snd r)) by (by intros []).
  refine (proj2 (proj2 (proj2
    (X12_message_without_chunk_fails_task (fst streaming1) (snd streaming1) it
       _ _ eq_refl eq_refl (Hrun _)))) "/tmp/tmpabc.wav" _ eq_refl eq_refl);
    vm_compute; reflexivity.
Defined.

(** ** The timeline operator *)

Import Timeline.

Lemma filter_scene_music_kept (l : list strip) :
  List.filter is_scene_music (List.filter (λ s, negb (is_scene_music s)) l) = [].
Proof.
  induction l as [|x l IH]; [reflexivity|]. simpl.
  destruct (is_scene_music x) eqn:Hx; simpl; [exact IH|].
  by rewrite Hx.
Qed.

(** X13. The timeline operator leaves the sequence editor as it is, and
    ends with an error report and [CANCELLED], whenever the path is
    empty, the file does not exist (before or after the path is made
    absolute), or the file cannot be read as a WAV file (as a file that
    was created but never written). *)
Theorem X13_timeline_rejects_unusable_file
    abspath unique_name filepath err st v :
  truthy filepath = false
  ∨ path_exists filepath st = false
  ∨ path_exists (abspath filepath) st = false
  ∨ read_nframes (abspath filepath) st = None →
  snd (execute abspath unique_name filepath err st v) = CANCELLED
  ∧ sequence_editor (fst (execute abspath unique_name filepath err st v))
    = sequence_editor v
  ∧ last (reports (fst (execute abspath unique_name filepath err st v)))
    = Some ERROR.
Proof.
  intros H. unfold execute.
  destruct (truthy filepath) eqn:Ht; simpl;
    [|by rewrite last_snoc].
  destruct (path_exists filepath st) eqn:He; simpl;
    [|by rewrite last_snoc].
  destruct (path_exists (abspath filepath) st) eqn:Ha; simpl;
    [|by rewrite last_snoc].
  destruct (read_nframes (abspath filepath) st) eqn:Hr.
  - by destruct H as [H | [H | [H | H]]].
  - simpl. rewrite last_snoc. by destruct (path_getsize _ _ =? 0)%nat.
Qed.

Lemma X13_witness :
  sequence_editor
    (fst (execute id (λ n _, n) "/tmp/tmpabc.wav" None (snd (waiting env_ok))
            {| sequence_editor := Some []; reports := [] |}))
  = Some [].
Proof.
  refine (proj1 (proj2 (X13_timeline_rejects_unusable_file
            id (λ n _, n) "/tmp/tmpabc.wav" None (snd (waiting env_ok))
            {| sequence_editor := Some []; reports := [] |} _))).
  right. right. right. vm_compute. reflexivity.
Defined.

(** X14. When the timeline operator finishes, the sequence editor holds
    exactly one sound strip whose name begins with
    ["Composer4U_Scene_Music"]: the new one, on channel 1 from frame 1,
    for the absolute path of a file that exists. The strips it had
    before are kept, in order, except the earlier music strips. (The host
    names the new strip after the requested name.) *)
Theorem X14_timeline_keeps_one_music_strip
    abspath unique_name filepath err st v v' :
  (∀ l, String.prefix "Composer4U_Scene_Music"
          (unique_name "Composer4U_Scene_Music" l) = true) →
  execute abspath unique_name filepath err st v = (v', FINISHED) →
  ∃ new,
    sequence_editor v'
    = Some (List.filter (λ s, negb (is_scene_music s))
              (default [] (sequence_editor v)) ++ [new])
    ∧ List.filter is_scene_music (default [] (sequence_editor v')) = [new]
    ∧ strip_filepath new = abspath filepath
    ∧ strip_channel new = 1%Z
    ∧ strip_frame_start new = 1%Z
    ∧ path_exists (abspath filepath) st = true
    ∧ err = None.
Proof.
  intros Hname. unfold execute.
  destruct (negb (truthy filepath) || negb (path_exists filepath st));
    [discriminate|].
  destruct (path_exists (abspath filepath) st) eqn:Ha; simpl; [|discriminate].
  destruct (read_nframes (abspath filepath) st) as [n|]; [|discriminate].
  destruct err; [discriminate|].
  match goal with |- context [default [] (sequence_editor ?u)] =>
    assert (Hv2 : sequence_editor u = sequence_editor v)
      by (by destruct (n =? 0)%nat, (path_getsize _ _ =? 0)%nat);
    rewrite Hv2 end.
  intros [= <-]. eexists. cbn [sequence_editor default].
  split_and!; try reflexivity.
  unfold id. rewrite List.filter_app, filter_scene_music_kept. simpl.
  unfold is_scene_music. simpl. by rewrite Hname.
Qed.

Lemma X14_witness :
  let v := {| sequence_editor :=
                Some [{| strip_name := "Composer4U_Scene_Music";
                         strip_type := "SOUND"; strip_filepath := "/old.wav";
                         strip_channel := 1; strip_frame_start := 1 |};
                      {| strip_name := "Title"; strip_type := "TEXT";
                         strip_filepath := ""; strip_channel := 2;
                         strip_frame_start := 1 |}];
              reports := [] |} in
  ∃ new,
    List.filter is_scene_music
      (default [] (sequence_editor
         (fst (execute id (λ n _, n) "/tmp/tmpabc.wav" None (snd stopped1) v))))
    = [new]
    ∧ strip_filepath new = "/tmp/tmpabc.wav".
Proof.
  intros v.
  assert (Hex : execute id (λ n _, n) "/tmp/tmpabc.wav" None (snd stopped1) v
                = (fst (execute id (λ n _, n) "/tmp/tmpabc.wav" None
                          (snd stopped1) v), FINISHED))
    by (vm_compute; reflexivity).
  destruct (X14_timeline_keeps_one_music_strip
              id (λ n _, n) "/tmp/tmpabc.wav" None (snd stopped1) v _
              (λ _, eq_refl) Hex) as (new & _ & H2 & H3 & _).
  exists new. split; [exact H2 | exact H3].
Defined.

(** X15. A WAV file that has its header but no frame is not refused: the
    operator reports a warning and adds the strip all the same. *)
Theorem X15_timeline_adds_empty_wav
    abspath unique_name filepath st v :
  truthy filepath = true →
  path_exists filepath st = true →
  read_nframes (abspath filepath) st = Some 0 →
  snd (execute abspath unique_name filepath None st v) = FINISHED
  ∧ WARNING ∈ reports (fst (execute abspath unique_name filepath None st v))
  ∧ ∃ new,
      new ∈ default [] (sequence_editor
                          (fst (execute abspath unique_name filepath None st v)))
      ∧ strip_filepath new = abspath filepath.
Proof.
  intros Ht He Hr. unfold execute. rewrite Ht, He. simpl.
  assert (Ha : path_exists (abspath filepath) st = true).
  { unfold read_nframes in Hr. unfold path_exists.
    destruct (files st !! abspath filepath) eqn:E; [|discriminate].
    apply bool_decide_eq_true. eauto. }
  rewrite Ha, Hr. simpl. split_and!.
  - reflexivity.
  - apply elem_of_app. left.
    destruct (path_getsize _ _ =? 0)%nat; simpl; set_solver.
  - eexists. split;
      [apply elem_of_app; right; by apply list_elem_of_singleton | reflexivity].
Qed.

Lemma X15_witness :
  snd (execute id (λ n _, n) "/tmp/tmpabc.wav" None (shared w_stopped0)
         {| sequence_editor := None; reports := [] |}) = FINISHED.
Proof.
  refine (proj1 (X15_timeline_adds_empty_wav
            id (λ n _, n) "/tmp/tmpabc.wav" (shared w_stopped0)
            {| sequence_editor := None; reports := [] |} eq_refl _ _));
    vm_compute; reflexivity.
Defined.

(** X16. The partial file of a stopped generation is always accepted by
    the timeline operator: after any run of clean iterations followed by
    a stop, executing the operator on the resolved path (an absolute,
    non-empty path) finishes and adds a strip for that file. *)
Theorem X16_stopped_generation_loads_into_timeline
    key prompt folder e0 st0 its j st abspath unique_name v :
  device_open_error e0 = None →
  wave_open_error e0 = None →
  release_ok e0 →
  forallb clean its = true →
  run_job (connect ++ yields its
             ++ [CancelHandle; Resume (Throw AsyncioCancelledError)])
    (fresh (create key prompt folder e0)) st0 = (j, st) →
  let p := resolved key prompt folder e0 st0 in
  truthy p = true →
  abspath p = p →
  snd (execute abspath unique_name p None st v) = FINISHED
  ∧ ∃ new,
      new ∈ default [] (sequence_editor
                          (fst (execute abspath unique_name p None st v)))
      ∧ strip_filepath new = p.
Proof.
  intros Hdev Hwav Hok Hcl Hrun p Ht Hp.
  destruct (stop_after_chunks _ _ _ _ _ _ _ _ Hdev Hwav Hok Hcl Hrun)
    as (_ & _ & Hf & Hn & _).
  fold p in Hf, Hn.
  unfold execute. rewrite Ht, Hp. simpl.
  assert (Ha : path_exists p st = true).
  { unfold path_exists. apply bool_decide_eq_true. rewrite Hf. eauto. }
  rewrite Ha, Hn. simpl. split; [reflexivity|].
  eexists. split;
    [apply elem_of_app; right; by apply list_elem_of_singleton | reflexivity].
Qed.

Lemma X16_witness :
  snd (execute id (λ n _, n)
         (resolved "key" "calm piano" "" env_ok empty_store) None
         (snd (run_job (connect ++ yields [it_audio]
                          ++ [CancelHandle; Resume (Throw AsyncioCancelledError)])
                 (job0 env_ok) empty_store))
         {| sequence_editor := None; reports := [] |}) = FINISHED.
Proof.
  assert (Hrun : ∀ r : job * store, r = (fst r, snd r)) by (by intros []).
  exact (proj1 (X16_stopped_generation_loads_into_timeline
                  "key" "calm piano" "" env_ok empty_store [it_audio] _ _
                  id (λ n _, n) {| sequence_editor := None; reports := [] |}
                  eq_refl eq_refl eq_refl eq_refl (Hrun _) eq_refl eq_refl)).
Defined.

(** ** Reconciling success and failure *)

(** X17. After a generation on which nothing went wrong, the tick records
    the resolved path as the last audio path, appends the entry
    ["Composer4U: Music generated successfully."], clears the handle and
    does not call the timeline operator. This holds even when the stream
    ended before any chunk: the file then holds only its header. *)
Theorem X17_success_is_recorded key prompt folder e0 st0 its j st w :
  device_open_error e0 = None →
  wave_open_error e0 = None →
  release_ok e0 →
  forallb clean its = true →
  run_job (connect ++ yields its ++ [Resume StopAsyncIteration])
    (fresh (create key prompt folder e0)) st0 = (j, st) →
  shared w = st →
  current_future w = Some (fut j) →
  truthy (resolved key prompt folder e0 st0) = true →
  composer4u_last_audio_path (fst (modal w)) = resolved key prompt folder e0 st0
  ∧ composer4u_history (fst (modal w))
    = composer4u_history w ++ ["Composer4U: Music generated successfully."]
  ∧ timeline_calls (fst (modal w)) = timeline_calls w
  ∧ _async_task_future (fst (modal w)) = None.
Proof.
  intros Hdev Hwav Hok Hcl Hrun Hsh Hcur Ht.
  destruct (clean_run _ _ _ _ _ _ _ _ Hdev Hwav Hok Hcl Hrun)
    as (Hfut & Hpath & Hmsg & Hf & _).
  set (p := resolved key prompt folder e0 st0) in *.
  assert (Hau : has_audio (PyStr p) st = true).
  { simpl. rewrite Ht. unfold path_exists, path_getsize. rewrite Hf. simpl.
    reflexivity. }
  unfold modal. rewrite Hcur, Hfut. simpl.
  unfold modal_try. simpl. rewrite Hsh, Hpath.
  assert (Hm : get_message (container st) "Music generated successfully."
               = "Music generated successfully.").
  { unfold get_message. unfold dict_get in Hmsg.
    destruct (container st !! "message") as [[|m]|]; simpl in Hmsg; congruence. }
  rewrite Hm. unfold modal_update_path. rewrite Hsh, Hau. simpl. auto.
Qed.

Lemma X17_witness :
  composer4u_last_audio_path (fst (modal w_finished))
  = resolved "key" "calm piano" "" env_ok empty_store.
Proof.
  assert (Hrun : ∀ r : job * store, r = (fst r, snd r)) by (by intros []).
  refine (proj1 (X17_success_is_recorded
            "key" "calm piano" "" env_ok empty_store [it_audio] _ _ w_finished
            eq_refl eq_refl eq_refl eq_refl (Hrun _) _ _ eq_refl));
    vm_compute; reflexivity.
Defined.

Lemma contains_prefix s t : contains s (s +:+ t) = true.
Proof.
  destruct s as [|a s]; [by destruct t|].
  change (String a s +:+ t) with (String a (s +:+ t)).
  cbn [contains].
  change (String a (s +:+ t)) with (String a s +:+ t).
  by rewrite prefix_append.
Qed.

(** X18. A failed outcome always clears the last audio path, whatever it
    held: [modal] appends the entry ["Composer4U: Error: "] followed by
    the text of the exception, clears the handle, calls no timeline
    operator and leaves the files alone. *)
Theorem X18_failure_clears_last_path w t :
  current_future w = Some (Finished (Raised (PyException t))) →
  composer4u_last_audio_path (fst (modal w)) = ""
  ∧ composer4u_history (fst (modal w))
    = composer4u_history w ++ ["Composer4U: Error: " +:+ t]
  ∧ timeline_calls (fst (modal w)) = timeline_calls w
  ∧ _async_task_future (fst (modal w)) = None
  ∧ shared (fst (modal w)) = shared w.
Proof.
  intros Hcur. unfold modal. rewrite Hcur. cbn [done].
  unfold modal_try. cbn [result is_Exception is_CancelledError str].
  cbv beta iota. unfold fst. unfold modal_update_path. cbn [has_audio].
  pose proof (contains_prefix "Error" (": " +:+ t)) as Hc.
  change ("Error" +:+ ": " +:+ t) with ("Error: " +:+ t) in Hc.
  rewrite Hc. simpl. auto.
Qed.

Lemma X18_witness :
  composer4u_last_audio_path
    (fst (modal (exec (Submit env_ok :: to_loop
                         ++ [Background 0 (Yield it_filtered)]) ready))) = "".
Proof.
  refine (proj1 (X18_failure_clears_last_path _
                   "'LiveMusicFilteredPrompt' object has no attribute 'reason'" _)).
  vm_compute. reflexivity.
Defined.

(** X19. When PyAudio is present but the output device cannot be opened,
    the generation fails at its first step, before the WAV writer is
    opened and before anything is sent to the service: the cleanup only
    has PyAudio to terminate; the handle finishes with the device error
    (with the error of [terminate()] if that call raises, and PyAudio is
    then not released), the path in the result container is cleared, and
    the temporary file that was created for the artifact is removed
    (unless [os.remove] raises). *)
Theorem X19_device_open_failure_fails_generation
    key prompt folder e0 st0 err j st :
  pyaudio_available e0 = true →
  device_open_error e0 = Some err →
  job_step (Resume Start) (fresh (create key prompt folder e0)) st0 = (j, st) →
  let t := default err (terminate_error e0) in
  fut j = Finished (Raised (PyException t))
  ∧ at_pc (coro j) = Done (Raised (PyException t))
  ∧ wav_writer (coro j) = None
  ∧ session (coro j) = None
  ∧ output_stream (coro j) = None
  ∧ p_audio (coro j)
    = Some (if terminate_error e0 is Some _ then Open else Closed)
  ∧ dict_get (container st) "audio_filepath" = PyNone
  ∧ (truthy (resolved key prompt folder e0 st0) = true →
     remove_error e0 = None →
     files st !! resolved key prompt folder e0 st0 = None).
Proof.
  intros Hpa Hdev. cbn [job_step]. unfold advance.
  cbn [coro fresh at_pc create]. unfold _generate_music_async.
  cbn [at_pc create]. unfold start.
  destruct (resolve_path (create key prompt folder e0) st0) as [p st1] eqn:Hr.
  assert (Hp : p = resolved key prompt folder e0 st0)
    by (unfold resolved; by rewrite Hr).
  cbn [env create]. rewrite Hpa, Hdev.
  destruct (fail _ _ _) as [c1 st2] eqn:Hf.
  intros [= <- <-]. cbv zeta. cbn [fut coro].
  pose proof Hf as Hf'. apply fail_spec in Hf'.
  destruct Hf' as (He & Hpath & _ & _ & _ & _ & _ & _ & _ & _ & Hcl).
  destruct (Hcl eq_refl) as [[Hco Hrm] _].
  assert (Hloc : wav_writer c1 = None ∧ session c1 = None
                 ∧ output_stream c1 = None
                 ∧ p_audio c1
                   = Some (if terminate_error e0 is Some _ then Open else Closed)
                 ∧ at_pc c1
                   = Done (Raised (PyException (default err (terminate_error e0))))).
  { unfold fail, except, finally, and_then, close_writer, close_stream,
      terminate in Hf. simpl in Hf.
    destruct (terminate_error e0); simpl in Hf; by injection Hf as <- <-. }
  destruct Hloc as (? & ? & ? & ? & Hpc). rewrite Hpc. split_and!; auto.
  intros Ht Hre. apply Hrm.
  - rewrite Hpath. simpl. by rewrite Hp.
  - exact Ht.
  - rewrite He. exact Hre.
Qed.

Lemma X19_witness :
  let e := {| now := "20250101_120000"; temp_name := "/tmp/tmpabc.wav";
              pyaudio_available := true;
              device_open_error := Some "[Errno -9996] Invalid output device";
              wave_open_error := None; remove_error := None;
              close_error := None; stop_stream_error := None;
              stream_close_error := None; terminate_error := None |} in
  files (snd (job_step (Resume Start) (job0 e) empty_store))
    !! resolved "key" "calm piano" "" e empty_store = None.
Proof.
  intros e.
  assert (Hrun : ∀ r : job * store, r = (fst r, snd r)) by (by intros []).
  exact (proj2 (proj2 (proj2 (proj2 (proj2 (proj2 (proj2
    (X19_device_open_failure_fails_generation
       "key" "calm piano" "" e empty_store _ _ _ eq_refl eq_refl (Hrun _))))))))
    eq_refl eq_refl).
Defined.

(** ** The selection in the history *)

Lemma step_index a w :
  (composer4u_history (step a w) = composer4u_history w
   ∧ (selects a = false → composer4u_index (step a w) = composer4u_index w))
  ∨ (∃ x, composer4u_history (step a w) = composer4u_history w ++ [x]
          ∧ composer4u_index (step a w)
            = (Z.of_nat (length (composer4u_history (step a w))) - 1)%Z).
Proof.
  destruct a as [s|s|z|e| | | |k r]; simpl; try (left; split; [done|]; done).
  - unfold submit. destruct (poll w); [|by left].
    unfold invoke.
    destruct (truthy (prefs_api_key w)); simpl; [|by left].
    destruct (truthy (Py.strip (composer4u_input w))); simpl; [|by left].
    destruct (truthy (Py.strip (composer4u_output_folder w)) && _); [by left|].
    simpl. right. eauto.
  - left. split; [by destruct (request_stop_fields w) as (-> & _)|]. intros _.
    unfold request_stop, stop_execute. destruct (stop_poll w); [|done].
    destruct (_async_task_future w) eqn:E; [|done]. simpl.
    unfold cancel_current. by rewrite E.
  - unfold modal. destruct (current_future w) as [f|]; [|by left].
    destruct (done f); [|by left].
    destruct (modal_try f w) as [[[a m] w1]|] eqn:Ht; [|by left].
    right. simpl. exists ("Composer4U: " +:+ m). split; [|reflexivity].
    f_equal.
    assert (Hw1 : composer4u_history w1 = composer4u_history w).
    { unfold modal_try in Ht. destruct (result f) as [|e].
      - by injection Ht as <- <- <-.
      - destruct (is_Exception e); [|discriminate].
        destruct (is_CancelledError e).
        + injection Ht as <- <- <-. by destruct (has_audio _ _).
        + by injection Ht as <- <- <-. }
    rewrite <- Hw1. unfold modal_update_path.
    destruct (has_audio a (shared w1)); [done|].
    by destruct (contains "Error" m || contains "No audio file" m).
  - left. unfold cancel. destruct (stop_poll w); [|done].
    unfold cancel_current. by destruct (_async_task_future w).
  - left. unfold background. destruct (_async_tasks w !! k); [|done].
    by destruct (advance r _ _).
Qed.

(** X7. The history index follows the log unless the user moves it: every
    entry that [invoke] or [modal] appends becomes the selected one;
    between two appends nothing but the user's selection of a row changes
    the index; so in every state the add-on reaches without such a
    selection, the index designates the last entry of the history (and is
    0 while the history is empty). *)
Theorem X7_index_follows_history key st acts :
  let w := exec acts (initial key st) in
  (forallb (λ a, negb (selects a)) acts = true →
   composer4u_history w = [] ∧ composer4u_index w = 0%Z
   ∨ (composer4u_index w = (Z.of_nat (length (composer4u_history w)) - 1)%Z
      ∧ composer4u_history w !! Z.to_nat (composer4u_index w)
        = last (composer4u_history w)))
  ∧ (∀ a, composer4u_history (step a w) ≠ composer4u_history w →
       composer4u_index (step a w)
       = (Z.of_nat (length (composer4u_history (step a w))) - 1)%Z
       ∧ composer4u_history (step a w) !! Z.to_nat (composer4u_index (step a w))
         = last (composer4u_history (step a w)))
  ∧ (∀ a, selects a = false →
       composer4u_history (step a w) = composer4u_history w →
       composer4u_index (step a w) = composer4u_index w).
Proof.
  cbv zeta.
  assert (Hlast : ∀ h : list string, h ≠ [] →
            h !! Z.to_nat (Z.of_nat (length h) - 1) = last h).
  { intros [|x l] Hne; [done|]. rewrite last_lookup. f_equal. simpl. lia. }
  split_and!.
  - intros Hacts.
    assert (H : composer4u_history (exec acts (initial key st)) = []
                ∧ composer4u_index (exec acts (initial key st)) = 0%Z
                ∨ composer4u_index (exec acts (initial key st))
                  = (Z.of_nat (length (composer4u_history
                                         (exec acts (initial key st)))) - 1)%Z).
    { induction acts as [|a acts IH] using rev_ind; [by left|].
      rewrite forallb_app in Hacts. apply andb_true_iff in Hacts as [H1 H2].
      simpl in H2. rewrite andb_true_r in H2. apply negb_true_iff in H2.
      rewrite exec_snoc.
      destruct (step_index a (exec acts (initial key st)))
        as [[Hh Hi] | (x & _ & Hi)]; [|by right].
      rewrite Hh, (Hi H2). by apply IH. }
    destruct H as [H | H]; [by left|].
    destruct (composer4u_history (exec acts (initial key st))) as [|x l] eqn:Hh.
    + simpl in H. right. split; [exact H|]. by rewrite H.
    + right. split; [exact H|]. rewrite H. by apply Hlast.
  - intros a Hne.
    destruct (step_index a (exec acts (initial key st)))
      as [[Hh _] | (x & Hh & Hi)]; [done|].
    split; [exact Hi|]. rewrite Hi. apply Hlast. rewrite Hh.
    intros He. apply (f_equal length) in He. rewrite length_app in He.
    simpl in He. lia.
  - intros a Ha Hh.
    destruct (step_index a (exec acts (initial key st)))
      as [[_ Hi] | (x & Hh' & _)]; [by apply Hi|].
    rewrite Hh in Hh'. apply (f_equal length) in Hh'.
    rewrite length_app in Hh'. simpl in Hh'. lia.
Qed.

Lemma X7_witness :
  composer4u_history w_second = [] ∧ composer4u_index w_second = 0%Z
  ∨ (composer4u_index w_second
     = (Z.of_nat (length (composer4u_history w_second)) - 1)%Z
     ∧ composer4u_history w_second !! Z.to_nat (composer4u_index w_second)
       = last (composer4u_history w_second)).
Proof.
  exact (proj1 (X7_index_follows_history "key" empty_store second_flight) eq_refl).
Defined.

(** ** A stop before the task has started *)

Lemma set_tasks_id w : set_tasks (_async_tasks w) (shared w) w = w.
Proof. by destruct w. Qed.

(** Steps of the background loop on one task, seen from the add-on. *)
Lemma background_run i rs : ∀ w j,
  _async_tasks w !! i = Some j →
  exec (map (Background i) rs) w
  = set_tasks (<[i := fst (run_job (map Resume rs) j (shared w))]> (_async_tasks w))
      (snd (run_job (map Resume rs) j (shared w))) w.
Proof.
  induction rs as [|r rs IH]; intros w j Hj.
  - simpl. by rewrite list_insert_id, set_tasks_id.
  - cbn [map]. change (exec (Background i r :: map (Background i) rs) w)
      with (exec (map (Background i) rs) (background i r w)).
    cbn [run_job job_step]. unfold background. rewrite Hj.
    destruct (advance r j (shared w)) as [j1 st1].
    rewrite (IH _ j1); simpl.
    + by rewrite list_insert_insert_eq.
    + apply list_lookup_insert_eq. by eapply lookup_lt_Some.
Qed.

Lemma cancel_connecting key prompt folder e0 st0 j st :
  device_open_error e0 = None →
  wave_open_error e0 = None →
  release_ok e0 →
  run_job [Resume Start; Resume (Throw AsyncioCancelledError)]
    (cancel_job (fresh (create key prompt folder e0))) st0 = (j, st) →
  fut j = Cancelled
  ∧ at_pc (coro j) = Done (Raised AsyncioCancelledError)
  ∧ dict_get (container st) "audio_filepath"
    = PyStr (resolved key prompt folder e0 st0)
  ∧ files st !! resolved key prompt folder e0 st0
    = Some {| header := Some 0; payload := []; on_disk := HEADER_BYTES |}
  ∧ released (coro j).
Proof.
  intros Hdev Hwav Hok.
  destruct (start_clean key prompt folder e0 st0 Hdev Hwav)
    as (c & st1 & Hs & Hpc & Hf & _).
  pose proof (start_inv _ _ _ _ _ _ _ Hs) as (He & Hwc & Hi).
  rewrite Hpc in Hi. destruct Hi as [Hp Hco _ Hw _ _ Hse]. rewrite Hpc in Hse.
  cbn [run_job job_step]. unfold advance at 1.
  cbn [coro cancel_job fresh create at_pc fut]. unfold _generate_music_async at 1.
  cbn [at_pc create]. rewrite Hs. rewrite Hpc.
  unfold advance. cbn [coro]. rewrite Hpc.
  unfold _generate_music_async. rewrite Hpc.
  destruct (fail AsyncioCancelledError c st1) as [c2 st2] eqn:Hfail.
  intros [= <- <-]. cbn [fut coro].
  apply fail_spec in Hfail.
  destruct Hfail as (_ & _ & _ & _ & _ & _ & (x & Hx & _ & Hxok) & Hrel & _ & Hk & _).
  destruct (Hk eq_refl) as [Hco' Hfi].
  rewrite He in Hxok, Hrel. rewrite (Hxok Hok) in Hx. rewrite Hx. simpl.
  apply release_ok_spec in Hok as Hok'. destruct Hok' as (Hce & _).
  unfold writer_closes in Hfi. rewrite Hw, He, Hce in Hfi. simpl in Hfi.
  unfold path_of in Hfi. rewrite Hp in Hfi. simpl in Hfi.
  split_and!; auto.
  - unfold dict_get. by rewrite Hco', Hco.
  - rewrite Hfi. unfold Wave.close. by rewrite lookup_alter_eq, Hf.
  - apply Hrel; [done|]. by rewrite Hse.
Qed.

(** X9. A stop accepted before the background loop has run the first
    step of the task does not keep the task from starting. A
    cancellation cannot reach a coroutine that has not started: the step
    does nothing. The first step runs all the same, resolves the path and
    opens the device and the writer; the cancellation arrives at the
    first [await]; the cleanup leaves a file that holds only its header.
    The tick then records that path as the last audio path, calls the
    timeline operator with it, and the history shows the prompt followed
    by the stop message. *)
Theorem X9_stop_before_first_step e w w1 :
  submit e w = (w1, Some RUNNING_MODAL) →
  device_open_error e = None →
  wave_open_error e = None →
  release_ok e →
  let i := length (_async_tasks w) in
  let p := resolved (prefs_api_key w) (Py.strip (composer4u_input w))
             (Py.strip (composer4u_output_folder w)) e (shared w1) in
  truthy p = true →
  exec [Stop; Background i (Throw AsyncioCancelledError)] w1 = exec [Stop] w1
  ∧ (let w2 := exec [Stop; Background i Start;
                     Background i (Throw AsyncioCancelledError); Tick] w1 in
     files (shared w2) !! p
     = Some {| header := Some 0; payload := []; on_disk := HEADER_BYTES |}
     ∧ composer4u_last_audio_path w2 = p
     ∧ timeline_calls w2 = timeline_calls w ++ [p]
     ∧ composer4u_history w2
       = composer4u_history w
         ++ ["Prompt: " +:+ Py.strip (composer4u_input w);
             "Composer4U: Generation stopped by user."]
     ∧ _async_task_future w2 = None).
Proof.
  intros Hsub Hdev Hwav Hok. cbv zeta.
  assert (Hinv : invoke e w = (w1, RUNNING_MODAL)).
  { unfold submit in Hsub. destruct (poll w); [|discriminate].
    destruct (invoke e w) as [w1' s]. by injection Hsub as <- <-. }
  clear Hsub. unfold invoke in Hinv.
  destruct (truthy (prefs_api_key w)); simpl in Hinv; [|discriminate].
  destruct (truthy (Py.strip (composer4u_input w))); simpl in Hinv; [|discriminate].
  destruct (truthy (Py.strip (composer4u_output_folder w)) && _); [discriminate|].
  injection Hinv as <-. cbn [shared].
  set (c := create _ _ _ e).
  set (i := length (_async_tasks w)).
  set (st1 := with_container ∅ (shared w)).
  set (p := resolved _ _ _ e st1).
  set (w1 := {| composer4u_input := ""; _async_task_future := Some i |}).
  intros Ht.
  assert (Hi : (_async_tasks w ++ [fresh c]) !! i = Some (fresh c))
    by apply list_lookup_middle, eq_refl.
  set (ts1 := alter cancel_job i (_async_tasks w ++ [fresh c])).
  assert (Hi1 : ts1 !! i = Some (cancel_job (fresh c))).
  { unfold ts1. by rewrite list_lookup_alter_eq, Hi. }
  assert (HS : fst (request_stop w1) = set_tasks ts1 st1 w1).
  { unfold request_stop, stop_poll, current_future. simpl. rewrite Hi. simpl.
    reflexivity. }
  split.
  - unfold exec. cbn [foldl step]. rewrite HS.
    unfold background. cbn [_async_tasks set_tasks shared]. rewrite Hi1.
    unfold advance. cbn. rewrite list_insert_id by exact Hi1. reflexivity.
  - change (exec [Stop; Background i Start;
                  Background i (Throw AsyncioCancelledError); Tick] w1)
      with (step Tick (exec (map (Background i) [Start; Throw AsyncioCancelledError])
                         (fst (request_stop w1)))).
    rewrite HS.
    rewrite (background_run i _ (set_tasks ts1 st1 w1) (cancel_job (fresh c)) Hi1).
    cbn [shared set_tasks _async_tasks map].
    destruct (run_job _ (cancel_job (fresh c)) st1) as [j st] eqn:Hrun.
    destruct (cancel_connecting _ _ _ _ _ _ _ Hdev Hwav Hok Hrun)
      as (Hfut & _ & Hpath & Hfile & _).
    fold p in Hpath, Hfile. cbn [fst snd].
    assert (Hau : has_audio (PyStr p) st = true).
    { simpl. rewrite Ht. unfold path_exists, path_getsize. rewrite Hfile.
      simpl. reflexivity. }
    cbn [step]. unfold modal, current_future. cbn.
    rewrite list_lookup_insert_eq
      by (unfold ts1; rewrite length_alter, length_app; simpl; unfold i; lia).
    cbn. rewrite Hfut. cbn. unfold modal_try. cbn. rewrite Hpath, Hau. cbn.
    unfold modal_update_path.
    cbn [shared add_audio_to_timeline set_last_audio_path set_tasks].
    rewrite Hau. cbn.
    split_and!; try reflexivity; [exact Hfile|].
    by rewrite <- app_assoc.
Qed.

Lemma X9_witness :
  composer4u_last_audio_path
    (exec [Stop; Background (length (_async_tasks ready)) Start;
           Background (length (_async_tasks ready))
             (Throw AsyncioCancelledError); Tick]
       (fst (submit env_ok ready)))
  = resolved (prefs_api_key ready) (Py.strip (composer4u_input ready))
      (Py.strip (composer4u_output_folder ready)) env_ok
      (shared (fst (submit env_ok ready))).
Proof.
  assert (Hsub : submit env_ok ready
                 = (fst (submit env_ok ready), Some RUNNING_MODAL))
    by (vm_compute; reflexivity).
  exact (proj1 (proj2 (proj2 (X9_stop_before_first_step env_ok ready _ Hsub
                                eq_refl eq_refl eq_refl eq_refl)))).
Defined.

(** ** What the cancellation check and the cleanup do not do *)

(** X20. The cancellation check of the receive loop never fires. In every
    state a submitted task can reach, stop requests included,
    [was_cancelled] is unset; while the task waits for a message the
    check answers [False], so no message is dropped by it and the loop is
    never left through its [break]: an iteration either goes on to the
    next [await] or ends the coroutine with an exception. *)
Theorem X20_loop_check_never_fires key prompt folder e0 st0 evs j st :
  run_job evs (fresh (create key prompt folder e0)) st0 = (j, st) →
  was_cancelled (coro j) = false
  ∧ (at_pc (coro j) = AwaitReceive →
     current_task_cancelled (coro j) = false
     ∧ ∀ it, was_cancelled (fst (loop_body it (coro j) st)) = false
             ∧ (at_pc (fst (loop_body it (coro j) st)) = AwaitReceive
                ∨ ∃ t, at_pc (fst (loop_body it (coro j) st))
                       = Done (Raised (PyException t)))).
Proof.
  intros Hrun.
  pose proof (reachable_inv _ _ _ _ _ _ _ _ Hrun) as [Hc _].
  pose proof Hc as (_ & Hwc & _).
  split; [exact Hwc|]. intros Hpc.
  split; [unfold current_task_cancelled; by rewrite Hpc|]. intros it.
  destruct (loop_body it (coro j) st) as [c1 st1] eqn:Hl. simpl.
  assert (Hs : _generate_music_async (Yield it) (coro j) st = (c1, st1))
    by (unfold _generate_music_async; by rewrite Hpc).
  pose proof (co_step_inv _ _ _ _ _ _ _ _ _ _ Hc Hs) as (_ & Hwc1 & _).
  split; [exact Hwc1|].
  assert (Hfail' : ∀ t c s, fail (PyException t) c s = (c1, st1) →
            ∃ t', at_pc c1 = Done (Raised (PyException t'))).
  { intros t c s Hf. apply fail_spec in Hf.
    destruct Hf as (_ & _ & _ & _ & _ & _ & (x & -> & [-> | (t' & -> & _)] & _) & _);
      eauto. }
  unfold loop_body, current_task_cancelled in Hl. rewrite Hpc in Hl.
  destruct (server_content (msg it)) as [[|chunk rest]|].
  - right. eauto.
  - destruct (write_error it); [right; eauto|].
    destruct (output_stream (coro j)).
    + destruct (play_error it); [right; eauto|].
      injection Hl as <- <-. by left.
    + injection Hl as <- <-. by left.
  - destruct (filtered_prompt (msg it)) as [[reason|text]|];
      [right; eauto | right; eauto |].
    injection Hl as <- <-. by left.
Qed.

Lemma X20_witness :
  fut (fst stopping1) = Cancelled
  ∧ was_cancelled (coro (fst stopping1)) = false
  ∧ current_task_cancelled (coro (fst stopping1)) = false.
Proof.
  assert (Hrun : ∀ r : job * store, r = (fst r, snd r)) by (by intros []).
  destruct (X20_loop_check_never_fires
              "key" "calm piano" "" env_ok empty_store
              (connect ++ [Resume (Yield it_audio); CancelHandle]) _ _ (Hrun _))
    as [H1 H2].
  destruct (H2 eq_refl) as [H3 _].
  split; [reflexivity|]. split; assumption.
Defined.

(** X21. When the stream ends cleanly but closing the writer raises, the
    calls after it in the [finally] clause are skipped: the device stream
    and PyAudio stay open; the handle ends with the error of [close()]
    although the coroutine had already stored the success message; and,
    the [except] clause not having run, the path stays in the result
    container and the file stays on disk with the data written. *)
Theorem X21_close_error_skips_the_other_releases
    key prompt folder e0 st0 its j st t :
  device_open_error e0 = None →
  wave_open_error e0 = None →
  close_error e0 = Some t →
  forallb clean its = true →
  run_job (connect ++ yields its ++ [Resume StopAsyncIteration])
    (fresh (create key prompt folder e0)) st0 = (j, st) →
  fut j = Finished (Raised (PyException t))
  ∧ wav_writer (coro j) = Some Open
  ∧ output_stream (coro j) = (if pyaudio_available e0 then Some Open else None)
  ∧ p_audio (coro j) = (if pyaudio_available e0 then Some Open else None)
  ∧ dict_get (container st) "audio_filepath"
    = PyStr (resolved key prompt folder e0 st0)
  ∧ dict_get (container st) "message" = PyStr "Music generated successfully."
  ∧ (∃ f, files st !! resolved key prompt folder e0 st0 = Some f
          ∧ payload f = concat (chunks_of its)).
Proof.
  intros Hdev Hwav Hce Hcl Hrun.
  rewrite app_assoc, run_job_app in Hrun.
  destruct (run_job (connect ++ yields its) _ st0) as [j1 st1] eqn:Hrun1.
  pose proof (reachable_inv _ _ _ _ _ _ _ _ Hrun1) as [(He & Hwc & Hc) _].
  destruct (stream_prefix _ _ _ _ _ Hdev Hwav its j1 st1 Hcl Hrun1)
    as (Hpc & Hfut & (f & Hf & Hhd & Hpay) & Hpl).
  rewrite Hpc in Hc. destruct Hc as [Hpath Hcon _ Hw Hos Hpa _].
  cbn [run_job job_step] in Hrun. unfold advance in Hrun. rewrite Hpc in Hrun.
  unfold _generate_music_async in Hrun. rewrite Hpc in Hrun.
  destruct (leave_session_spec (coro j1))
    as (K1 & _ & K3 & K4 & K5 & K6 & K7 & K8 & K9).
  unfold complete, leave, finally, and_then, close_writer in Hrun.
  rewrite K5, Hw, K4, He, Hce, K8, Hwc in Hrun.
  injection Hrun as <- <-. cbn [fut coro at_pc with_pc wav_writer output_stream
    p_audio container files with_container].
  rewrite Hfut, K5, K6, K7. split_and!; auto.
  - unfold dict_get. rewrite lookup_insert_ne by done. by rewrite Hcon.
  - unfold dict_get. by rewrite lookup_insert_eq.
  - eauto.
Qed.

Lemma X21_witness :
  wav_writer (coro (fst overflow1)) = Some Open
  ∧ output_stream (coro (fst overflow1)) = Some Open
  ∧ p_audio (coro (fst overflow1)) = Some Open.
Proof.
  assert (Hrun : ∀ r : job * store, r = (fst r, snd r)) by (by intros []).
  destruct (X21_close_error_skips_the_other_releases
              "key" "calm piano" "" env_full empty_store [it_audio] _ _
              "[Errno 28] No space left on device"
              eq_refl eq_refl eq_refl eq_refl (Hrun _))
    as (_ & H2 & H3 & H4 & _).
  split_and!; assumption.
Defined.
